(** * StockDashboard: quote acquisition and fallback merging

    A shallow embedding of the two quote-acquisition entry points of the
    repository,

    - the browser client [fetchStocks] (src/api.ts), and
    - the serverless [handler] (api/stocks.ts),

    together with the helpers they are built from: the numeric normalizer
    [num], the deterministic mock generators, the provider adapters and the
    symbol normalisation, and of the handlers of the dashboard component
    that use the client: [load], [addSymbol] and the [filtered] view
    (src/App.tsx).

    Modelling conventions.

    - JavaScript strings are [string]s over ASCII code units; [trim] and
      [toUpperCase] act on the ASCII white space and the letters a-z, code
      units above 127 are left alone.  A code unit of a [string] is below
      256, so no [string] holds a surrogate: the symbols of the model are
      the JavaScript strings without one.  [encodeURIComponent] is modelled
      on all UTF-16 code units ([URI.Encode]), where it throws a URIError at
      an unpaired surrogate; on the symbols of the model it never does.
    - The symbol lists hold strings, as the TypeScript signatures say.
    - JavaScript numbers are [jsnum]: NaN, the two infinities, or a finite
      value kept as an exact rational.  Binary64 rounding and the sign of
      zero are not represented; overflow to an infinity is represented where
      a string is converted to a number.
    - The outside world (provider responses, wall clock, sine, date parser,
      credentials) is a [World] record.  Code that awaits, throws or reads
      the clock lives in the monad [M], which threads the number of clock
      readings made so far and carries a thrown exception. *)

From Stdlib Require Import Ascii String QArith Qround Qabs ZArith Lia Lqa Sorted.
From stdpp Require Import base option list strings gmap.

Local Open Scope string_scope.
Local Open Scope list_scope.

(** ** Strings *)

Module Str.

Definition code (c : ascii) : nat := nat_of_ascii c.

(** White space recognised by [String.prototype.trim] and by the
    string-to-number conversion: TAB, LF, VT, FF, CR and SP. *)
Definition isWhiteSpace (c : ascii) : bool :=
  let n := code c in
  ((9 <=? n)%nat && (n <=? 13)%nat) || (n =? 32)%nat.

Definition isLower (c : ascii) : bool :=
  let n := code c in (97 <=? n)%nat && (n <=? 122)%nat.

Definition upperChar (c : ascii) : ascii :=
  if isLower c then ascii_of_nat (code c - 32) else c.

Fixpoint toUpperCase (s : string) : string :=
  match s with
  | EmptyString => EmptyString
  | String c s' => String (upperChar c) (toUpperCase s')
  end.

Fixpoint trimStart (s : string) : string :=
  match s with
  | EmptyString => EmptyString
  | String c s' => if isWhiteSpace c then trimStart s' else s
  end.

Fixpoint trimEnd (s : string) : string :=
  match s with
  | EmptyString => EmptyString
  | String c s' =>
      match trimEnd s' with
      | EmptyString => if isWhiteSpace c then EmptyString else String c EmptyString
      | r => String c r
      end
  end.

Definition trim (s : string) : string := trimEnd (trimStart s).

(** [s.split(sep)] for a one-character separator. *)
Fixpoint split (sep : ascii) (s : string) : list string :=
  match s with
  | EmptyString => [EmptyString]
  | String c s' =>
      if Ascii.eqb c sep then EmptyString :: split sep s'
      else match split sep s' with
           | h :: t => String c h :: t
           | [] => [String c EmptyString]
           end
  end.

(** [l.join(sep)]. *)
Fixpoint join (sep : string) (l : list string) : string :=
  match l with
  | [] => EmptyString
  | [x] => x
  | x :: l' => x ++ sep ++ join sep l'
  end.

(** [s.replace(/[cs]/g, "")]: every occurrence of a character of the class
    is deleted. *)
Fixpoint removeAll (cls : list ascii) (s : string) : string :=
  match s with
  | EmptyString => EmptyString
  | String c s' =>
      if bool_decide (c ∈ cls) then removeAll cls s'
      else String c (removeAll cls s')
  end.

(** Truthiness of a string: [Boolean(s)]. *)
Definition truthy (s : string) : bool :=
  match s with EmptyString => false | _ => true end.

(** Truthiness of a possibly absent string, [Boolean(x)] for
    [x : string | undefined]. *)
Definition truthy_opt (o : option string) : bool :=
  match o with Some s => truthy s | None => false end.

(** [s.charCodeAt(0)], absent (NaN) on the empty string. *)
Definition charCodeAt0 (s : string) : option nat :=
  match s with EmptyString => None | String c _ => Some (code c) end.

End Str.

(** ** Insertion-ordered sets, as [new Set(arr)] / [Array.from] use them *)

Module JsSet.

(** A JavaScript [Set] of strings keeps its members in insertion order;
    it is a duplicate-free list. *)
Definition add (s : list string) (x : string) : list string :=
  if bool_decide (x ∈ s) then s else s ++ [x].

Definition new (arr : list string) : list string := foldl add [] arr.

Definition Array_from (s : list string) : list string := s.

End JsSet.

(** Symbol normalisation shared by the client ([fetchStocks], [buildMock])
    and the handler ([uniqueSymbols]):
    [arr.map(s => s.trim().toUpperCase()).filter(Boolean)] followed by
    [Array.from(new Set(..))]. *)
Definition normSymbol (s : string) : string := Str.toUpperCase (Str.trim s).

Definition normalize (arr : list string) : list string :=
  JsSet.Array_from (JsSet.new (filter (fun s => Str.truthy s = true) (normSymbol <$> arr))).

Definition defaultSymbols : list string := ["AAPL"; "MSFT"; "GOOGL"; "AMZN"; "NVDA"].

(** ** Numbers *)

(** A JavaScript number. [Fin q] stands for the double nearest to [q]. *)
Inductive jsnum : Type :=
| NaN : jsnum
| Inf (negative : bool) : jsnum
| Fin (q : Q) : jsnum.

Module Num.

Local Open Scope Q_scope.

Definition isFinite (x : jsnum) : bool :=
  match x with Fin _ => true | _ => false end.

Definition isNaN (x : jsnum) : bool :=
  match x with NaN => true | _ => false end.

(** Truthiness of a number: zero and NaN are falsy. *)
Definition truthy (x : jsnum) : bool :=
  match x with
  | NaN => false
  | Inf _ => true
  | Fin q => negb (Qeq_bool q 0)
  end.

Definition isNeg (q : Q) : bool := negb (Qle_bool 0 q).

Definition neg (x : jsnum) : jsnum :=
  match x with
  | NaN => NaN
  | Inf s => Inf (negb s)
  | Fin q => Fin (- q)
  end.

Definition add (x y : jsnum) : jsnum :=
  match x, y with
  | NaN, _ | _, NaN => NaN
  | Inf s, Inf s' => if Bool.eqb s s' then Inf s else NaN
  | Inf s, Fin _ | Fin _, Inf s => Inf s
  | Fin a, Fin b => Fin (a + b)
  end.

Definition sub (x y : jsnum) : jsnum := add x (neg y).

Definition mul (x y : jsnum) : jsnum :=
  match x, y with
  | NaN, _ | _, NaN => NaN
  | Inf s, Inf s' => Inf (xorb s s')
  | Inf s, Fin q | Fin q, Inf s =>
      if Qeq_bool q 0 then NaN else Inf (xorb s (isNeg q))
  | Fin a, Fin b => Fin (a * b)
  end.

Definition div (x y : jsnum) : jsnum :=
  match x, y with
  | NaN, _ | _, NaN => NaN
  | Inf _, Inf _ => NaN
  | Inf s, Fin q => Inf (xorb s (isNeg q))
  | Fin _, Inf _ => Fin 0
  | Fin a, Fin b =>
      if Qeq_bool b 0
      then (if Qeq_bool a 0 then NaN else Inf (isNeg a))
      else Fin (a / b)
  end.

(** [Math.floor]. *)
Definition floor (x : jsnum) : jsnum :=
  match x with Fin q => Fin (inject_Z (Qfloor q)) | _ => x end.

(** [Math.round]: the nearest integer, ties towards plus infinity. *)
Definition roundQ (q : Q) : Z := Qfloor (q + (1 # 2)).

Definition round (x : jsnum) : jsnum :=
  match x with Fin q => Fin (inject_Z (roundQ q)) | _ => x end.

(** [Math.max] of two numbers. *)
Definition max (x y : jsnum) : jsnum :=
  match x, y with
  | NaN, _ | _, NaN => NaN
  | Inf false, _ | _, Inf false => Inf false
  | Inf true, z | z, Inf true => z
  | Fin a, Fin b => if Qle_bool a b then Fin b else Fin a
  end.

(** [+x.toFixed(2)]: the decimal with two fraction digits nearest to [x],
    ties away from zero, read back as a number.  At or above 10^21
    [toFixed] prints the number itself. *)
Definition toFixed2Q (q : Q) : Q :=
  if Qle_bool (inject_Z (10 ^ 21)) (Qabs q) then q
  else if isNeg q then - (inject_Z (Qfloor (- q * 100 + (1 # 2))) / 100)
  else inject_Z (Qfloor (q * 100 + (1 # 2))) / 100.

Definition toFixed2 (x : jsnum) : jsnum :=
  match x with Fin q => Fin (toFixed2Q q) | _ => x end.

Definition ofNat (n : nat) : jsnum := Fin (inject_Z (Z.of_nat n)).
Definition ofZ (n : Z) : jsnum := Fin (inject_Z n).

(** Equality of numbers as values ([==] on the rationals). *)
Definition eqv (x y : jsnum) : Prop :=
  match x, y with
  | NaN, NaN => True
  | Inf s, Inf s' => s = s'
  | Fin a, Fin b => a == b
  | _, _ => False
  end.


End Num.

Declare Scope js_scope.
Delimit Scope js_scope with js.
Bind Scope js_scope with jsnum.
Infix "+" := Num.add : js_scope.
Infix "-" := Num.sub : js_scope.
Infix "*" := Num.mul : js_scope.
Infix "/" := Num.div : js_scope.

(** ** String to number: [Number(s)] *)

Module StringToNumber.

Local Open Scope Z_scope.

Definition digitOf (radix : Z) (c : ascii) : option Z :=
  let n := Z.of_nat (Str.code c) in
  let v :=
    if (48 <=? n) && (n <=? 57) then Some (n - 48)
    else if (97 <=? n) && (n <=? 122) then Some (n - 87)
    else if (65 <=? n) && (n <=? 90) then Some (n - 55)
    else None in
  match v with
  | Some d => if d <? radix then Some d else None
  | None => None
  end.

(** The longest prefix of digits: its value on top of [acc], how many
    digits were read, and the rest of the input. *)
Fixpoint digits (radix : Z) (s : string) (acc : Z) (n : nat) : Z * nat * string :=
  match s with
  | EmptyString => (acc, n, s)
  | String c s' =>
      match digitOf radix c with
      | Some d => digits radix s' (acc * radix + d) (S n)
      | None => (acc, n, s)
      end
  end.

Definition sign (s : string) : bool * string :=
  match s with
  | String "+" s' => (false, s')
  | String "-" s' => (true, s')
  | _ => (false, s)
  end.

(** The largest magnitude that still rounds to a finite double is just
    below 2^1024 - 2^970. *)
Definition overflow_bound : Q := inject_Z (2 ^ 1024 - 2 ^ 970).

Definition finite_or_inf (negative : bool) (q : Q) : jsnum :=
  if Qle_bool overflow_bound q then Inf negative
  else Fin (Qred (if negative then - q else q)).

(** mantissa * 10^e *)
Definition scale10 (m : Z) (e : Z) : Q :=
  if (0 <=? e) then inject_Z (m * 10 ^ e)
  else Qmake m (Z.to_pos (10 ^ (- e))).

(** ExponentPart, optional; [None] when an exponent marker is not followed
    by a well-formed exponent. *)
Definition exponent (s : string) : option (Z * string) :=
  match s with
  | String c s' =>
      if bool_decide (c = "e"%char \/ c = "E"%char) then
        let '(neg, s1) := sign s' in
        let '(v, n, rest) := digits 10 s1 0 0 in
        if (n =? 0)%nat then None
        else Some (if neg then (- v) else v, rest)
      else Some (0, s)
  | EmptyString => Some (0, s)
  end.

(** StrUnsignedDecimalLiteral other than Infinity. *)
Definition decimal (negative : bool) (s : string) : jsnum :=
  let '(ip, ni, s1) := digits 10 s 0 0 in
  let '(m, nf, s2) :=
    match s1 with
    | String "." s1' => digits 10 s1' ip 0
    | _ => (ip, 0%nat, s1)
    end in
  if (ni + nf =? 0)%nat then NaN
  else match exponent s2 with
       | Some (e, EmptyString) =>
           finite_or_inf negative (scale10 m (e - Z.of_nat nf))
       | _ => NaN
       end.

Definition nonDecimal (radix : Z) (s : string) : jsnum :=
  match digits radix s 0 0 with
  | (v, S _, EmptyString) => finite_or_inf false (inject_Z v)
  | _ => NaN
  end.

(** [Number(s)] for a string [s]. *)
Definition Number (s : string) : jsnum :=
  match Str.trim s with
  | EmptyString => Fin 0
  | String "0" (String "x" r) | String "0" (String "X" r) => nonDecimal 16 r
  | String "0" (String "o" r) | String "0" (String "O" r) => nonDecimal 8 r
  | String "0" (String "b" r) | String "0" (String "B" r) => nonDecimal 2 r
  | t =>
      let '(negative, u) := sign t in
      if String.eqb u "Infinity" then Inf negative else decimal negative u
  end.

End StringToNumber.

(** ** URL encoding *)

(** [encodeURIComponent] on a string given by its UTF-16 code units: the
    characters A-Z a-z 0-9 - _ . ! ~ * ' ( ) stay, every other code point
    is written as the escaped octets of its UTF-8 form.  [None] is the
    URIError thrown at a surrogate code unit that is not part of a pair. *)
Module URI.

Local Open Scope N_scope.

Definition isHighSurrogate (u : N) : bool := (0xD800 <=? u) && (u <=? 0xDBFF).

Definition isLowSurrogate (u : N) : bool := (0xDC00 <=? u) && (u <=? 0xDFFF).

Definition unescaped (u : N) : bool :=
  ((65 <=? u) && (u <=? 90)) || ((97 <=? u) && (u <=? 122))
  || ((48 <=? u) && (u <=? 57))
  || existsb (N.eqb u) [45; 95; 46; 33; 126; 42; 39; 40; 41].

Definition hexDigit (n : N) : ascii :=
  ascii_of_N (if n <? 10 then 48 + n else 55 + n).

Definition escape (octet : N) : string :=
  String "%" (String (hexDigit (octet / 16))
                (String (hexDigit (octet mod 16)) EmptyString)).

Definition utf8 (cp : N) : list N :=
  if cp <? 0x80 then [cp]
  else if cp <? 0x800 then [0xC0 + cp / 64; 0x80 + cp mod 64]
  else if cp <? 0x10000
  then [0xE0 + cp / 4096; 0x80 + (cp / 64) mod 64; 0x80 + cp mod 64]
  else [0xF0 + cp / 262144; 0x80 + (cp / 4096) mod 64;
        0x80 + (cp / 64) mod 64; 0x80 + cp mod 64].

Definition escapes (cp : N) (tail : string) : string :=
  foldr (fun octet s => escape octet +:+ s) tail (utf8 cp).

Fixpoint Encode (units : list N) : option string :=
  match units with
  | [] => Some EmptyString
  | u :: rest =>
      if unescaped u then String (ascii_of_N u) <$> Encode rest
      else if isLowSurrogate u then None
      else if isHighSurrogate u then
        match rest with
        | l :: rest' =>
            if isLowSurrogate l
            then escapes (0x10000 + (u - 0xD800) * 0x400 + (l - 0xDC00))
                   <$> Encode rest'
            else None
        | [] => None
        end
      else escapes u <$> Encode rest
  end.

End URI.

(** The code units of a string of the model. *)
Definition codeUnits (s : string) : list N :=
  N_of_ascii <$> list_ascii_of_string s.

(** ** The data model (src/types.ts) *)

(** [lastUpdated] is an ISO-8601 instant; it is kept as the epoch
    millisecond that [toISOString] renders. *)
Record StockData : Type := mkStockData {
  symbol : string;
  price : jsnum;
  change : jsnum;
  changePercent : jsnum;
  marketCap : option jsnum;
  volume : option jsnum;
  lastUpdated : Z;
}.

Record StockApiResponse : Type := mkResp {
  stocks : list StockData;
  error : option string;
}.

(** The five numeric fields of a row. *)
Definition numericFields (r : StockData)
  : jsnum * jsnum * jsnum * option jsnum * option jsnum :=
  (price r, change r, changePercent r, marketCap r, volume r).

(** ** The outside world *)

(** What an HTTP GET followed by [.json()] can do: [fetch] rejects, the
    body is not JSON, or a JSON value arrives. *)
Inductive http (A : Type) : Type :=
| FetchRejects : http A
| JsonRejects : http A
| Body (a : A) : http A.
Arguments FetchRejects {A}.
Arguments JsonRejects {A}.
Arguments Body {A} a.

(** The "Global Quote" object of an Alpha Vantage GLOBAL_QUOTE answer, as
    far as the code looks at it: the six members it reads (absent when the
    key is missing or null) and the number of its other own keys, members
    that are null among them. *)
Record GlobalQuote : Type := mkGlobalQuote {
  gq_symbol : option string;          (* "01. symbol" *)
  gq_price : option string;           (* "05. price" *)
  gq_volume : option string;          (* "06. volume" *)
  gq_latest_day : option string;      (* "07. latest trading day" *)
  gq_change : option string;          (* "09. change" *)
  gq_change_percent : option string;  (* "10. change percent" *)
  gq_other_keys : nat;
}.

(** A GLOBAL_QUOTE answer: JSON [null], or a value with the three members
    the code reads.  [av_quote = None] stands for a missing or falsy
    "Global Quote". *)
Inductive AvJson : Type :=
| AvNull : AvJson
| AvObj (Note Information : option string) (av_quote : option GlobalQuote) : AvJson.

(** An Alpha Vantage OVERVIEW answer. *)
Inductive OverviewJson : Type :=
| OvNull : OverviewJson
| OvObj (Note : option string) (MarketCapitalization : option string) : OverviewJson.

(** A Finnhub /quote answer: a falsy JSON value, or a value whose members
    [c], [d], [dp], [pc], [v] are present exactly when they are numbers. *)
Inductive FinnhubJson : Type :=
| FhFalsy : FinnhubJson
| FhObj (c d dp pc v : option jsnum) : FinnhubJson.

(** A Finnhub /stock/profile2 answer. *)
Inductive ProfileJson : Type :=
| PfNull : ProfileJson
| PfObj (marketCapitalization : option jsnum) : ProfileJson.

Record World : Type := mkWorld {
  (** [Math.sin], an implementation-approximated function. *)
  Math_sin : Q -> Q;
  (** The [k]-th reading of the wall clock ([Date.now()], [new Date()]),
      in epoch milliseconds. *)
  clock : nat -> Z;
  (** [Date.parse] and the [Date] constructor on a string; [None] is NaN,
      an invalid date. *)
  Date_parse : string -> option Z;
  (** Credentials: [VITE_ALPHA_VANTAGE_KEY] of the client, [FINNHUB_KEY]
      and [ALPHA_VANTAGE_KEY] of the handler. *)
  API_KEY : option string;
  FINN_KEY : option string;
  AV_KEY : option string;
  (** Provider answers per requested symbol. *)
  av_GLOBAL_QUOTE : string -> http AvJson;
  av_OVERVIEW : string -> http OverviewJson;
  finnhub_quote : string -> http FinnhubJson;
  finnhub_profile2 : string -> http ProfileJson;
}.

(** ** Exceptions, promises and the clock *)

Inductive exn : Type :=
  NetworkError | SyntaxError | TypeError | RangeError | URIError.

Inductive outcome (A : Type) : Type :=
| Returned (a : A) : outcome A
| Thrown (e : exn) : outcome A.
Arguments Returned {A} a.
Arguments Thrown {A} e.

(** A computation starts with [k] clock readings made, and ends with a
    value or an exception and the new count. *)
Definition M (A : Type) : Type := nat -> outcome A * nat.

Definition ret {A} (a : A) : M A := fun k => (Returned a, k).

Definition throw {A} (e : exn) : M A := fun k => (Thrown e, k).

Definition bind {A B} (m : M A) (f : A -> M B) : M B :=
  fun k =>
    match m k with
    | (Returned a, k') => f a k'
    | (Thrown e, k') => (Thrown e, k')
    end.

(** [try { m } catch { h }], and [p.catch(() => h)] on a promise. *)
Definition catch {A} (m : M A) (h : M A) : M A :=
  fun k =>
    match m k with
    | (Returned a, k') => (Returned a, k')
    | (Thrown _, k') => h k'
    end.

Declare Scope M_scope.
Delimit Scope M_scope with M.
Notation "'let!' x ':=' m 'in' f" := (bind m (fun x => f))
  (at level 10, x pattern, m at level 100, f at level 200) : M_scope.
Bind Scope M_scope with M.

(** [arr.map(f)] for a callback [f(element, index)] that has effects;
    [i] is the index of the head. *)
Fixpoint mapi {A B} (f : A -> nat -> M B) (i : nat) (l : list A) : M (list B) :=
  match l with
  | [] => ret []
  | x :: l' =>
      (let! y := f x i in
       let! ys := mapi f (S i) l' in
       ret (y :: ys))%M
  end.

Section Program.

Variable W : World.

Definition Date_now : M Z := fun k => (Returned (clock W k), S k).

(** [await fetch(url)] then [await res.json()]. *)
Definition fetch_json {A} (r : http A) : M A :=
  match r with
  | FetchRejects => throw NetworkError
  | JsonRejects => throw SyntaxError
  | Body a => ret a
  end.

(** *** Numeric normalizer *)

(** The client's [num] (src/api.ts). *)
Definition num (s : option string) : option jsnum :=
  match s with
  | None => None
  | Some s =>
      let n := StringToNumber.Number
                 (Str.trim (Str.removeAll [","%char] (Str.removeAll [","%char; "%"%char] s))) in
      if Num.isFinite n then Some n else None
  end.

(** The handler's [num] (local to [alphaVantageQuote]). *)
Definition num_handler (x : option string) : option jsnum :=
  match x with
  | None => None
  | Some x =>
      Some (StringToNumber.Number
              (Str.removeAll [","%char] (Str.removeAll [","%char; "%"%char] x)))
  end.

Definition rateLimited (obj : AvJson) : bool :=
  match obj with
  | AvNull => false
  | AvObj note info _ => Str.truthy_opt note || Str.truthy_opt info
  end.

(** *** Mock generator of the client *)

Record preset : Type := mkPreset { p_price : Q; p_cap : Q; p_vol : Q }.

Definition MOCK_PRESETS (s : string) : option preset :=
  if String.eqb s "AAPL" then Some (mkPreset 230.12 3.55e12 58000000)
  else if String.eqb s "MSFT" then Some (mkPreset 430.34 3.2e12 29000000)
  else if String.eqb s "GOOGL" then Some (mkPreset 168.77 2.1e12 26000000)
  else if String.eqb s "AMZN" then Some (mkPreset 178.45 1.85e12 41200000)
  else if String.eqb s "NVDA" then Some (mkPreset 121.65 2.9e12 52400000)
  else if String.eqb s "TSLA" then Some (mkPreset 249.02 0.77e12 95000000)
  else if String.eqb s "META" then Some (mkPreset 512.22 1.3e12 19000000)
  else None.

Definition sinJ (x : jsnum) : jsnum :=
  match x with Fin q => Fin (Math_sin W q) | _ => NaN end.

Definition minuteOf (now : Z) : Z := (now / 60000)%Z.

Definition jitter (seed : jsnum) : M jsnum :=
  (let! now := Date_now in
   let t := Num.ofZ (minuteOf now) in
   let x := (sinJ (seed * Fin 997 + t) * Fin 10000)%js in
   ret (x - Num.floor x)%js)%M.

Definition opt_num (o : option nat) : jsnum :=
  match o with Some n => Num.ofNat n | None => NaN end.

Definition makeMockRow (symbol : string) (i : nat) : M StockData :=
  let b :=
    match MOCK_PRESETS symbol with
    | Some b => b
    | None =>
        mkPreset (100 + inject_Z (Z.of_nat (i mod 8)) * 9)
                 (1e11 + inject_Z (Z.of_nat i) * 7e9)
                 (5000000 + inject_Z (Z.of_nat i) * 250000)
    end in
  (let! r := jitter (Num.ofNat i + opt_num (Str.charCodeAt0 symbol))%js in
   let pct := (r * Fin 6 - Fin 3)%js in
   let price := Num.toFixed2 (Fin (p_price b) * (Fin 1 + pct / Fin 100))%js in
   let changePercent := Num.toFixed2 pct in
   let change := Num.toFixed2 ((price * changePercent) / Fin 100)%js in
   let volume := Num.max (Fin 1) (Num.round (Fin (p_vol b) * (Fin 0.85 + r * Fin 0.3))%js) in
   let! now := Date_now in
   ret {| symbol := symbol;
          price := price;
          change := change;
          changePercent := changePercent;
          marketCap := Some (Num.round (Fin (p_cap b)));
          volume := Some volume;
          lastUpdated := now |})%M.

Definition buildMock (symbols : list string) : M (list StockData) :=
  let uniq := normalize symbols in
  mapi makeMockRow 0 (if (0 <? length uniq)%nat then uniq else defaultSymbols).

(** *** Alpha Vantage adapter of the client *)

Definition keys (g : GlobalQuote) : nat :=
  (length (omap id [gq_symbol g; gq_price g; gq_volume g;
                    gq_latest_day g; gq_change g; gq_change_percent g])
   + gq_other_keys g)%nat.

(** [new Date(s).toISOString()]: a RangeError on an invalid date. *)
Definition toISOString_of (s : string) : M Z :=
  match Date_parse W s with
  | Some ms => ret ms
  | None => throw RangeError
  end.

(** The [lastUpdated] expression shared by both Alpha Vantage adapters. *)
Definition resolveLastUpdated (latestDay : option string) : M Z :=
  if Str.truthy_opt latestDay
     && bool_decide (is_Some (Date_parse W (default "" latestDay)))
  then toISOString_of (default "" latestDay ++ "T16:00:00Z")
  else Date_now.

(** [encodeURIComponent(s)]. *)
Definition encodeURIComponent (s : string) : M string :=
  match URI.Encode (codeUnits s) with
  | Some encoded => ret encoded
  | None => throw URIError
  end.

(** The URL is built before the [try] block is entered, so an exception of
    [encodeURIComponent] is not caught.  The provider's answer to the
    request that the URL makes for [sym] is [av_GLOBAL_QUOTE W sym]. *)
Definition fetchQuote (sym : string) : M (option StockData) :=
  (let! url := encodeURIComponent sym in
   catch
     (let! data := fetch_json (av_GLOBAL_QUOTE W sym) in
      if rateLimited data then ret None
      else
        match data with
        | AvNull => throw TypeError
        | AvObj _ _ None => ret None
        | AvObj _ _ (Some g) =>
            if (keys g =? 0)%nat then ret None
            else
              let price := num (gq_price g) in
              let change := num (gq_change g) in
              let changePercent := num (gq_change_percent g) in
              let volume := num (gq_volume g) in
              match price, change, changePercent with
              | Some price, Some change, Some changePercent =>
                  let! lastUpdated := resolveLastUpdated (gq_latest_day g) in
                  ret (Some {| symbol := if Str.truthy_opt (gq_symbol g)
                                         then default "" (gq_symbol g) else sym;
                               price := price;
                               change := change;
                               changePercent := changePercent;
                               marketCap := None;
                               volume := volume;
                               lastUpdated := lastUpdated |})
              | _, _, _ => ret None
              end
        end)
     (ret None))%M.

(** *** The client entry point *)

(** [await sleep(ms)]: time passes; the clock readings are arbitrary, so
    nothing is recorded. *)
Definition sleep (ms : Z) : M unit := ret tt.

(** The [for] loop of [fetchStocks] over the symbols still to fetch. *)
Fixpoint fetch_loop (todo : list string) (rows : list StockData) (failed : list string)
  : M (list StockData * list string) :=
  match todo with
  | [] => ret (rows, failed)
  | sym :: rest =>
      (let! row := fetchQuote sym in
       let rows' := match row with Some r => rows ++ [r] | None => rows end in
       let failed' := match row with Some _ => failed | None => failed ++ [sym] end in
       let! _ := (if (0 <? length rest)%nat then sleep 250 else ret tt) in
       fetch_loop rest rows' failed')%M
  end.

(** [for (const r of [...rows, ...mocks]) merged.set(r.symbol, r)]. *)
Definition merge (rs : list StockData) : gmap string StockData :=
  foldl (fun m r => <[symbol r := r]> m) ∅ rs.

Definition fetchStocks (inputSymbols : list string) : M StockApiResponse :=
  let symbols := normalize inputSymbols in
  if negb (Str.truthy_opt (API_KEY W)) then
    (let! mocks := buildMock symbols in
     ret {| stocks := mocks;
            error := Some "No Alpha Vantage key found. Showing mock data." |})%M
  else
    (let! (rows, failed) := fetch_loop symbols [] [] in
     if (length rows =? 0)%nat then
       let! mocks := buildMock symbols in
       ret {| stocks := mocks;
              error := Some "Alpha Vantage daily limit reached or no data returned. Showing mock data." |}
     else if (0 <? length failed)%nat then
       let! mocks := buildMock failed in
       let merged := merge (rows ++ mocks) in
       ret {| stocks := omap (fun s => merged !! s) symbols;
              error := Some "Some symbols could not be refreshed (likely rate limit). Mock data shown for those entries." |}
     else ret {| stocks := rows; error := None |})%M.

(** *** The serverless handler (api/stocks.ts) *)

Definition uniqueSymbols (syms : option string) : list string :=
  normalize (Str.split "," (default (Str.join "," defaultSymbols) syms)).

(** The callback of [symbols.map] in [mockData]. *)
Definition mockData_row (s : string) (i : nat) : M StockData :=
  let base :=
    match MOCK_PRESETS s with
    | Some b => b
    | None =>
        mkPreset (100 + inject_Z (Z.of_nat (i mod 7)) * 7)
                 1e11
                 (5000000 + inject_Z (Z.of_nat i) * 150000)
    end in
  (let! now := Date_now in
   let t := Num.ofZ (minuteOf now) in
   let r := (sinJ (Num.ofNat i * Fin 997 + t) * Fin 0.5 + Fin 0.5)%js in
   let pct := (r * Fin 6 - Fin 3)%js in
   let price := Num.toFixed2 (Fin (p_price base) * (Fin 1 + pct / Fin 100))%js in
   let changePercent := Num.toFixed2 pct in
   let change := Num.toFixed2 ((price * changePercent) / Fin 100)%js in
   let volume := Num.max (Fin 1) (Num.round (Fin (p_vol base) * (Fin 0.8 + r * Fin 0.4))%js) in
   let! stamp := Date_now in
   ret {| symbol := s;
          price := price;
          change := change;
          changePercent := changePercent;
          marketCap := Some (Num.round (Fin (p_cap base)));
          volume := Some volume;
          lastUpdated := stamp |})%M.

Definition mockData (symbols : list string) : M StockApiResponse :=
  (let! rows := mapi mockData_row 0 symbols in
   ret {| stocks := rows;
          error := Some "Using mock data (provider unavailable or rate-limited)." |})%M.

Definition finnhubQuote (sym : string) : M (option StockData) :=
  (let! d := fetch_json (finnhub_quote W sym) in
   match d with
   | FhFalsy => ret None
   | FhObj None _ _ _ _ => ret None
   | FhObj (Some c) d_d d_dp d_pc d_v =>
       let! p := match finnhub_profile2 W sym with
                 | FetchRejects => throw NetworkError
                 | JsonRejects => ret (PfObj None)
                 | Body p => ret p
                 end in
       let cap := match p with
                  | PfObj (Some m) => Some (m * Fin 1e9)%js
                  | _ => None
                  end in
       let prevClose := default (Fin 0) d_pc in
       let change := default (c - prevClose)%js d_d in
       let changePercent :=
         default (if Num.truthy prevClose
                  then ((change / prevClose) * Fin 100)%js else Fin 0) d_dp in
       let! now := Date_now in
       ret (Some {| symbol := sym;
                    price := c;
                    change := change;
                    changePercent := changePercent;
                    marketCap := cap;
                    volume := d_v;
                    lastUpdated := now |})
   end)%M.

Definition alphaVantageQuote (sym : string) : M (option StockData) :=
  (let! j := fetch_json (av_GLOBAL_QUOTE W sym) in
   match j with
   | AvNull => ret None
   | AvObj note _ g =>
       if Str.truthy_opt note then ret None
       else
         match g with
         | None => ret None
         | Some g =>
             let price := num_handler (gq_price g) in
             let change := num_handler (gq_change g) in
             let changePercent := num_handler (gq_change_percent g) in
             let volume := num_handler (gq_volume g) in
             match price, change, changePercent with
             | Some price, Some change, Some changePercent =>
                 let! o := catch (fetch_json (av_OVERVIEW W sym)) (ret (OvObj None None)) in
                 let cap := match o with
                            | OvNull => None
                            | OvObj n mc =>
                                if Str.truthy_opt n then None else num_handler mc
                            end in
                 let! lastUpdated := resolveLastUpdated (gq_latest_day g) in
                 ret (Some {| symbol := sym;
                              price := price;
                              change := change;
                              changePercent := changePercent;
                              marketCap := cap;
                              volume := volume;
                              lastUpdated := lastUpdated |})
             | _, _, _ => ret None
             end
         end
   end)%M.

(** The loop shared by [fromFinnhub] and [fromAV]:
    [row = await quote(s).catch(() => null); if (row) out.push(row)]. *)
Fixpoint collect (quote : string -> M (option StockData)) (todo : list string)
    (out : list StockData) : M (list StockData) :=
  match todo with
  | [] => ret out
  | s :: rest =>
      (let! row := catch (quote s) (ret None) in
       collect quote rest (match row with Some r => out ++ [r] | None => out end))%M
  end.

Definition fromFinnhub (symbols : list string) : M StockApiResponse :=
  (let! out := collect finnhubQuote symbols [] in
   ret (if (0 <? length out)%nat then {| stocks := out; error := None |}
        else {| stocks := []; error := Some "Finnhub unavailable." |}))%M.

Definition fromAV (symbols : list string) : M StockApiResponse :=
  (let! out := collect alphaVantageQuote symbols [] in
   ret (if (0 <? length out)%nat then {| stocks := out; error := None |}
        else {| stocks := []; error := Some "Alpha Vantage unavailable." |}))%M.

(** The query of the request: [Query.safeParse] fails, or succeeds with an
    optional [symbols] string. *)
Inductive Query : Type :=
| QueryInvalid : Query
| QueryOk (symbols : option string) : Query.

Definition handler (query : Query) : M StockApiResponse :=
  let symbols := uniqueSymbols (match query with QueryOk s => s | QueryInvalid => None end) in
  let useFinn := Str.truthy_opt (FINN_KEY W) in
  let useAV := Str.truthy_opt (AV_KEY W) in
  let orMock (resp : StockApiResponse) : M StockApiResponse :=
    if (length (stocks resp) =? 0)%nat then mockData symbols else ret resp in
  if useFinn then
    (let! resp := fromFinnhub symbols in
     let! resp := (if (length (stocks resp) =? 0)%nat && useAV
                   then fromAV symbols else ret resp) in
     orMock resp)%M
  else if useAV then
    (let! resp := fromAV symbols in orMock resp)%M
  else mockData symbols.

End Program.

(** * Vocabulary of the properties *)

(** A string that does not begin with white space. *)
Definition startsClean (s : string) : Prop :=
  match s with
  | EmptyString => True
  | String c _ => Str.isWhiteSpace c = false
  end.

(** A symbol as the normalisation leaves it: trimmed, upper-cased and not
    empty. *)
Definition normalised (s : string) : Prop :=
  normSymbol s = s ∧ Str.truthy s = true.

(** The symbols a request is answered for: the normalised list, or the
    default set when that is empty. *)
Definition effective (symbols : list string) : list string :=
  if (0 <? length symbols)%nat then symbols else defaultSymbols.

(** The outcome of a computation is a value. *)
Definition returns {A} (x : outcome A * nat) (P : A → Prop) : Prop :=
  ∃ a k', x = (Returned a, k') ∧ P a.

Definition gotRow (x : outcome (option StockData) * nat) : bool :=
  match x with
  | (Returned (Some _), _) => true
  | _ => false
  end.

Section Vocabulary.

Variable W : World.

(** [r] is a row the client's mock generator produces. *)
Definition mock_row (r : StockData) : Prop :=
  ∃ s i k k', makeMockRow W s i k = (Returned r, k').

(** Whether the client adapter obtains a row for [s]. *)
Definition served (s : string) : bool := gotRow (fetchQuote W s 0).

(** [r] is a row the client adapter returns for the request [s]. *)
Definition live_row (s : string) (r : StockData) : Prop :=
  ∃ k k', fetchQuote W s k = (Returned (Some r), k').

(** The label the client adapter gives a row for the request [s]: the
    provider's "01. symbol" when that is a non-empty string, else [s]. *)
Definition echoed (s : string) : string :=
  match av_GLOBAL_QUOTE W s with
  | Body (AvObj _ _ (Some g)) =>
      if Str.truthy_opt (gq_symbol g) then default "" (gq_symbol g) else s
  | _ => s
  end.

(** Whether the handler's adapters obtain a row for [s]. *)
Definition fh_served (s : string) : bool :=
  gotRow (catch (finnhubQuote W s) (ret None) 0).

Definition av_served (s : string) : bool :=
  gotRow (catch (alphaVantageQuote W s) (ret None) 0).

(** The symbols the handler answers with provider rows: those Finnhub
    serves when it is configured and serves any, else those Alpha Vantage
    serves when it is configured. *)
Definition handler_live (symbols : list string) : list string :=
  let fh := if Str.truthy_opt (FINN_KEY W)
            then filter (λ s, fh_served s = true) symbols else [] in
  let av := if Str.truthy_opt (AV_KEY W)
            then filter (λ s, av_served s = true) symbols else [] in
  if (0 <? length fh)%nat then fh else av.

Definition query_symbols (q : Query) : list string :=
  uniqueSymbols (match q with QueryOk s => s | QueryInvalid => None end).

End Vocabulary.

(** What [quote(s).catch(() => null)] yields: a row labelled [s] exactly
    when [ok s]. *)
Definition adapter_ok (quote : string → M (option StockData)) (ok : string → bool) : Prop :=
  ∀ s k, returns (catch (quote s) (ret None) k)
           (λ o, match o with
                 | Some r => ok s = true ∧ symbol r = s
                 | None => ok s = false
                 end).

(** The minute bucket of an instant: epoch seconds divided by sixty,
    rounded down. *)
Definition minuteBucket (ms : Z) : Z := (ms / 1000 / 60)%Z.

(** The baseline a mock row starts from: the preset of a well-known
    symbol, else a baseline derived from the index. *)
Definition client_baseline (s : string) (i : nat) : preset :=
  match MOCK_PRESETS s with
  | Some b => b
  | None =>
      mkPreset (100 + inject_Z (Z.of_nat (i mod 8)) * 9)
               (1e11 + inject_Z (Z.of_nat i) * 7e9)
               (5000000 + inject_Z (Z.of_nat i) * 250000)
  end.

Definition handler_baseline (s : string) (i : nat) : preset :=
  match MOCK_PRESETS s with
  | Some b => b
  | None =>
      mkPreset (100 + inject_Z (Z.of_nat (i mod 7)) * 7)
               1e11
               (5000000 + inject_Z (Z.of_nat i) * 150000)
  end.

(** How the numbers of a mock row derive from the baseline [b] and the
    fraction [r], the volume being scaled by [lo + r * span]. *)
Definition mock_numbers (b : preset) (lo span : Q) (r : Q) (row : StockData) : Prop :=
  let pct := (Fin r * Fin 6 - Fin 3)%js in
  changePercent row = Num.toFixed2 pct
  ∧ price row = Num.toFixed2 (Fin (p_price b) * (Fin 1 + pct / Fin 100))%js
  ∧ change row = Num.toFixed2 ((price row * changePercent row) / Fin 100)%js
  ∧ volume row = Some (Num.max (Fin 1)
                         (Num.round (Fin (p_vol b) * (Fin lo + Fin r * Fin span))%js))
  ∧ marketCap row = Some (Num.round (Fin (p_cap b))).

(** Closes a goal [returns (v, k) P] on a computed outcome, or a branch whose
    case assumptions contradict each other. *)
Ltac returned :=
  first [ congruence
        | eexists _, _; split; [reflexivity|]; simpl; auto; congruence ].

(** * Scenarios *)

(** A date parser that knows one trading day. *)
Definition sampleDateParse (s : string) : option Z :=
  if String.eqb s "2024-05-10" then Some 1715299200000%Z
  else if String.eqb s "2024-05-10T16:00:00Z" then Some 1715356800000%Z
  else None.

(** No credentials and no network.  The sine reads 0.30303 everywhere, so
    the client's jitter fraction is 0.3. The clock advances by 250 ms per
    reading, starting at 2023-11-14T22:13:20Z. *)
Definition offline : World :=
  {| Math_sin := fun _ => 0.30303%Q;
     clock := fun k => (1700000000000 + 250 * Z.of_nat k)%Z;
     Date_parse := sampleDateParse;
     API_KEY := None;
     FINN_KEY := None;
     AV_KEY := None;
     av_GLOBAL_QUOTE := fun _ => FetchRejects;
     av_OVERVIEW := fun _ => FetchRejects;
     finnhub_quote := fun _ => FetchRejects;
     finnhub_profile2 := fun _ => FetchRejects |}.

(** The handler with a Finnhub key only; Finnhub has a quote for AAPL and
    answers every other symbol without the field [c] (its rate-limit
    answer is an object with only an [error] member). *)
Definition finnhubPartial : World :=
  {| Math_sin := Math_sin offline;
     clock := clock offline;
     Date_parse := Date_parse offline;
     API_KEY := None;
     FINN_KEY := Some "fk";
     AV_KEY := None;
     av_GLOBAL_QUOTE := fun _ => FetchRejects;
     av_OVERVIEW := fun _ => FetchRejects;
     finnhub_quote := fun s =>
       if String.eqb s "AAPL"
       then Body (FhObj (Some (Fin 230.5)) (Some (Fin 1.2)) (Some (Fin 0.52))
                        (Some (Fin 229.3)) None)
       else Body (FhObj None None None None None);
     finnhub_profile2 := fun _ => Body (PfObj (Some (Fin 3550))) |}.

(** The handler with a Finnhub key only; Finnhub has a quote for AAPL, and
    the connection fails for every other symbol. *)
Definition finnhubUnreachable : World :=
  {| Math_sin := Math_sin offline;
     clock := clock offline;
     Date_parse := Date_parse offline;
     API_KEY := None;
     FINN_KEY := Some "fk";
     AV_KEY := None;
     av_GLOBAL_QUOTE := fun _ => FetchRejects;
     av_OVERVIEW := fun _ => FetchRejects;
     finnhub_quote := fun s =>
       if String.eqb s "AAPL"
       then Body (FhObj (Some (Fin 230.5)) (Some (Fin 1.2)) (Some (Fin 0.52))
                        (Some (Fin 229.3)) None)
       else FetchRejects;
     finnhub_profile2 := fun _ => Body (PfObj (Some (Fin 3550))) |}.

(** A "Global Quote" object with all ten members of the provider's
    format. *)
Definition sampleQuote (echo price : string) : GlobalQuote :=
  {| gq_symbol := Some echo;
     gq_price := Some price;
     gq_volume := Some "52164500";
     gq_latest_day := Some "2024-05-10";
     gq_change := Some "-1.2700";
     gq_change_percent := Some "-0.6893%";
     gq_other_keys := 4 |}.

(** Worlds with an Alpha Vantage key, for the client and for the handler,
    in which GLOBAL_QUOTE answers as [answer] says. *)
Definition alphaVantage (answer : string → http AvJson) : World :=
  {| Math_sin := Math_sin offline;
     clock := clock offline;
     Date_parse := Date_parse offline;
     API_KEY := Some "demo";
     FINN_KEY := None;
     AV_KEY := Some "demo";
     av_GLOBAL_QUOTE := answer;
     av_OVERVIEW := fun _ => FetchRejects;
     finnhub_quote := fun _ => FetchRejects;
     finnhub_profile2 := fun _ => FetchRejects |}.

(** The provider labels each quote with the requested symbol. *)
Definition faithfulEcho : World :=
  alphaVantage (fun s => Body (AvObj None None (Some (sampleQuote s "183.0500")))).

(** The provider labels the quote for AAPL as MSFT and every other quote
    as AAPL. *)
Definition swappedEcho : World :=
  alphaVantage (fun s =>
    Body (AvObj None None
            (Some (sampleQuote (if String.eqb s "AAPL" then "MSFT" else "AAPL")
                               "183.0500")))).

(** The provider sends a price that is not a number. *)
Definition garbledPrice : World :=
  alphaVantage (fun s => Body (AvObj None None (Some (sampleQuote s "abc")))).

(** AAPL is served, every other symbol is rate limited. *)
Definition rateLimitedAfterFirst : World :=
  alphaVantage (fun s =>
    if String.eqb s "AAPL"
    then Body (AvObj None None (Some (sampleQuote s "183.0500")))
    else Body (AvObj (Some "Thank you for using Alpha Vantage!") None None)).

(** * Vocabulary of the further properties *)

(** Whether the character [c] occurs in [s]. *)
Fixpoint occurs (c : ascii) (s : string) : bool :=
  match s with
  | EmptyString => false
  | String d s' => Ascii.eqb d c || occurs c s'
  end.


(** The instant an Alpha Vantage adapter stamps on a row: 16:00Z of the
    trading day when the day is given and parses, the clock reading [now]
    otherwise; [None] when the day parses but its 16:00Z instant is not a
    valid date. *)
Definition closeOf (W : World) (day : option string) (now : Z) : option Z :=
  if Str.truthy_opt day && bool_decide (is_Some (Date_parse W (default "" day)))
  then Date_parse W (default "" day ++ "T16:00:00Z")
  else Some now.

(** * The dashboard (src/App.tsx) *)

(** [s.startsWith(p)] and [s.includes(q)]. *)
Fixpoint startsWith (s p : string) : bool :=
  match p, s with
  | EmptyString, _ => true
  | String _ _, EmptyString => false
  | String c p', String d s' => Ascii.eqb c d && startsWith s' p'
  end.

Fixpoint includes (s q : string) : bool :=
  startsWith s q
  || match s with
     | EmptyString => false
     | String _ s' => includes s' q
     end.

Inductive SortKey : Type :=
  KSymbol | KPrice | KChange | KChangePercent | KMarketCap | KVolume.

Inductive SortDir : Type := Asc | Desc.

(** What [pick] hands to the comparison: a string for the symbol column, a
    number for the others. *)
Inductive sortValue : Type :=
| VStr (s : string)
| VNum (x : jsnum).

(** [pick(s, k)]; an absent marketCap or volume counts as minus
    infinity. *)
Definition pick (s : StockData) (k : SortKey) : sortValue :=
  match k with
  | KSymbol => VStr (symbol s)
  | KPrice => VNum (price s)
  | KChange => VNum (change s)
  | KChangePercent => VNum (changePercent s)
  | KMarketCap => VNum (default (Inf true) (marketCap s))
  | KVolume => VNum (default (Inf true) (volume s))
  end.

(** [x < y] on numbers: false as soon as NaN is involved. *)
Definition num_lt (x y : jsnum) : bool :=
  match x, y with
  | NaN, _ | _, NaN => false
  | Inf true, Inf true => false
  | Inf true, _ => true
  | _, Inf true => false
  | Inf false, _ => false
  | Fin _, Inf false => true
  | Fin a, Fin b => negb (Qle_bool b a)
  end.

(** [A < B] for two picked values.  Strings compare by code units.  Both
    values of a comparison come from the same column, so a string never
    meets a number. *)
Definition value_lt (a b : sortValue) : bool :=
  match a, b with
  | VStr x, VStr y => String.ltb x y
  | VNum x, VNum y => num_lt x y
  | _, _ => false
  end.

(** The comparison function handed to [sort]. *)
Definition compareRows (k : SortKey) (dir : SortDir) (a b : StockData) : Z :=
  let A := pick a k in
  let B := pick b k in
  if value_lt A B then (match dir with Asc => -1 | Desc => 1 end)%Z
  else if value_lt B A then (match dir with Asc => 1 | Desc => -1 end)%Z
  else 0%Z.

(** [Array.prototype.sort] is stable; for a consistent comparison function
    its result is the stable sorted arrangement, which insertion from the
    right computes. *)
Fixpoint sortInsert {A} (cmp : A → A → Z) (x : A) (l : list A) : list A :=
  match l with
  | [] => [x]
  | y :: l' => if (cmp x y <=? 0)%Z then x :: l else y :: sortInsert cmp x l'
  end.

Definition Array_sort {A} (cmp : A → A → Z) (l : list A) : list A :=
  foldr (sortInsert cmp) [] l.

(** The state of the component. *)
Record AppState : Type := mkApp {
  app_symbols : list string;
  app_rows : list StockData;
  app_loading : bool;
  app_error : option string;
  app_query : string;
  app_sortKey : SortKey;
  app_sortDir : SortDir;
}.

(** The memo [filtered]: the rows whose symbol contains the query, sorted
    by the chosen column. *)
Definition filtered (st : AppState) : list StockData :=
  let q := Str.toUpperCase (Str.trim (app_query st)) in
  let arr :=
    if Str.truthy q
    then filter (λ x, includes (Str.toUpperCase (symbol x)) q = true) (app_rows st)
    else app_rows st in
  Array_sort (compareRows (app_sortKey st) (app_sortDir st)) arr.

(** [!!error && /mock|limit/i.test(error ?? "")]. *)
Definition mockMode (error : option string) : bool :=
  Str.truthy_opt error
  && (includes (Str.toUpperCase (default "" error)) "MOCK"
      || includes (Str.toUpperCase (default "" error)) "LIMIT").

Section App.

Variable W : World.

(** The [n]-th value of [Math.random()]. *)
Variable Math_random : nat → Q.

(** A row of the last-resort mock in the [catch] branch of [load]. *)
Definition fallbackRow (s : string) (i : nat) : M StockData :=
  (let! now := Date_now W in
   ret {| symbol := s;
          price := Fin (100 + inject_Z (Z.of_nat i) * 5);
          change := (Fin (Math_random (2 * i)) - Fin 0.5) * Fin 5;
          changePercent :=
            Num.toFixed2 (Fin (Math_random (2 * i + 1)) * Fin 6 - Fin 3);
          marketCap := Some (Fin (1e11 + inject_Z (Z.of_nat i) * 5e9));
          volume := Some (Fin (5000000 + inject_Z (Z.of_nat i) * 250000));
          lastUpdated := now |})%M.

(** [load]: the state once the request is over. *)
Definition load (st : AppState) : M AppState :=
  catch
    (let! resp := fetchStocks W (app_symbols st) in
     ret {| app_symbols := app_symbols st;
            app_rows := stocks resp;
            app_loading := false;
            app_error := if Str.truthy_opt (error resp) then error resp else None;
            app_query := app_query st;
            app_sortKey := app_sortKey st;
            app_sortDir := app_sortDir st |})%M
    (let! mocks := mapi fallbackRow 0 (app_symbols st) in
     ret {| app_symbols := app_symbols st;
            app_rows := mocks;
            app_loading := false;
            app_error := Some "Failed to fetch stock data. Showing mock data.";
            app_query := app_query st;
            app_sortKey := app_sortKey st;
            app_sortDir := app_sortDir st |})%M.

(** [addSymbol].  The [load] it awaits is the one of the render that
    created the handler, so the request goes out for the symbols of that
    render; the new list and the cleared query are what the setters
    store. *)
Definition addSymbol (st : AppState) : M AppState :=
  let s := Str.toUpperCase (Str.trim (app_query st)) in
  if negb (Str.truthy s) || bool_decide (s ∈ app_symbols st) then ret st
  else
    let next := take 16 (app_symbols st ++ [s]) in
    (let! st' := load st in
     ret {| app_symbols := next;
            app_rows := app_rows st';
            app_loading := app_loading st';
            app_error := app_error st';
            app_query := "";
            app_sortKey := app_sortKey st';
            app_sortDir := app_sortDir st' |})%M.

End App.

(** The order in which [filtered] arranges two picked values: [a] may
    stand before [b]. *)
Definition value_le (a b : sortValue) : Prop := value_lt b a = false.

Definition rowOrder (k : SortKey) (dir : SortDir) (a b : StockData) : Prop :=
  match dir with
  | Asc => value_le (pick a k) (pick b k)
  | Desc => value_le (pick b k) (pick a k)
  end.

(** The value a row is sorted by is not NaN. *)
Definition comparable (k : SortKey) (r : StockData) : Prop :=
  pick r k ≠ VNum NaN.

(** * Properties *)

(** ** Strings and symbol normalisation *)

Module StrFacts.
Import Str.

Lemma upperChar_idem c : upperChar (upperChar c) = upperChar c.
Proof. destruct c as [[] [] [] [] [] [] [] []]; reflexivity. Qed.

Lemma isWhiteSpace_upperChar c : isWhiteSpace (upperChar c) = isWhiteSpace c.
Proof. destruct c as [[] [] [] [] [] [] [] []]; reflexivity. Qed.

Lemma toUpperCase_idem s : toUpperCase (toUpperCase s) = toUpperCase s.
Proof. induction s as [|c s IH]; simpl; [done|]. by rewrite upperChar_idem, IH. Qed.

Lemma trimStart_toUpperCase s : trimStart (toUpperCase s) = toUpperCase (trimStart s).
Proof.
  induction s as [|c s IH]; simpl; [done|].
  rewrite isWhiteSpace_upperChar. by destruct (isWhiteSpace c).
Qed.

Lemma trimEnd_toUpperCase s : trimEnd (toUpperCase s) = toUpperCase (trimEnd s).
Proof.
  induction s as [|c s IH]; simpl; [done|].
  rewrite IH, isWhiteSpace_upperChar.
  destruct (trimEnd s); simpl; [by destruct (isWhiteSpace c)|done].
Qed.

Lemma trim_toUpperCase s : trim (toUpperCase s) = toUpperCase (trim s).
Proof. unfold trim. by rewrite trimStart_toUpperCase, trimEnd_toUpperCase. Qed.

Lemma trimStart_clean s : startsClean (trimStart s).
Proof.
  induction s as [|c s IH]; simpl; [done|].
  destruct (isWhiteSpace c) eqn:E; [done|]. exact E.
Qed.

Lemma trimStart_id s : startsClean s → trimStart s = s.
Proof. destruct s as [|c s]; simpl; [done|]. by intros ->. Qed.

Lemma trimEnd_clean s : startsClean s → startsClean (trimEnd s).
Proof.
  destruct s as [|c s]; simpl; [done|]. intros Hc.
  destruct (trimEnd s); simpl; [by rewrite Hc|done].
Qed.

Lemma trimEnd_idem s : trimEnd (trimEnd s) = trimEnd s.
Proof.
  induction s as [|c s IH]; simpl; [done|].
  destruct (trimEnd s) as [|d r] eqn:E.
  - destruct (isWhiteSpace c) eqn:Ec; simpl; [done|by rewrite Ec].
  - change (trimEnd (String c (String d r))) with
      (match trimEnd (String d r) with
       | EmptyString => if isWhiteSpace c then EmptyString else String c EmptyString
       | r' => String c r'
       end).
    by rewrite IH.
Qed.

Lemma trim_idem s : trim (trim s) = trim s.
Proof.
  unfold trim.
  rewrite (trimStart_id (trimEnd (trimStart s)))
    by apply trimEnd_clean, trimStart_clean.
  apply trimEnd_idem.
Qed.

End StrFacts.

Lemma normSymbol_idem s : normSymbol (normSymbol s) = normSymbol s.
Proof.
  unfold normSymbol.
  by rewrite StrFacts.trim_toUpperCase, StrFacts.trim_idem, StrFacts.toUpperCase_idem.
Qed.

Module JsSetFacts.
Import JsSet.

Lemma add_NoDup acc y : NoDup acc → NoDup (add acc y).
Proof.
  intros Hnd. unfold add. case_bool_decide as Hy; [done|].
  apply NoDup_app. split_and!; [done| |apply NoDup_singleton].
  by intros x Hx ->%list_elem_of_singleton.
Qed.

Lemma elem_of_add acc y x : x ∈ add acc y ↔ x ∈ acc ∨ x = y.
Proof.
  unfold add. case_bool_decide as Hy.
  - split; [by left|]. by intros [?| ->].
  - by rewrite elem_of_app, list_elem_of_singleton.
Qed.

Lemma foldl_add_spec (l acc : list string) :
  NoDup acc →
  NoDup (foldl add acc l) ∧ ∀ x, x ∈ foldl add acc l ↔ x ∈ acc ∨ x ∈ l.
Proof.
  revert acc. induction l as [|y l IH]; intros acc Hnd; simpl.
  - split; [done|]. intros x. rewrite elem_of_nil. tauto.
  - destruct (IH (add acc y) (add_NoDup _ _ Hnd)) as [H1 H2]. split; [done|].
    intros x. rewrite H2, elem_of_add, elem_of_cons. tauto.
Qed.

Lemma foldl_add_fresh (l acc : list string) :
  NoDup (acc ++ l) → foldl add acc l = acc ++ l.
Proof.
  revert acc. induction l as [|y l IH]; intros acc Hnd; simpl.
  - by rewrite app_nil_r.
  - assert (add acc y = acc ++ [y]) as ->.
    { unfold add. case_bool_decide as Hy; [|done].
      apply NoDup_app in Hnd as (_ & Hd & _). destruct (Hd y Hy). left. }
    rewrite IH; rewrite <- app_assoc; done.
Qed.

Lemma new_NoDup l : NoDup (new l).
Proof. apply foldl_add_spec, NoDup_nil_2. Qed.

Lemma elem_of_new l x : x ∈ new l ↔ x ∈ l.
Proof.
  unfold new. destruct (foldl_add_spec l [] (NoDup_nil_2)) as [_ H].
  rewrite H, elem_of_nil. tauto.
Qed.

Lemma new_id l : NoDup l → new l = l.
Proof. intros H. unfold new. by rewrite foldl_add_fresh. Qed.

End JsSetFacts.

Lemma normalize_NoDup arr : NoDup (normalize arr).
Proof. apply JsSetFacts.new_NoDup. Qed.

Lemma elem_of_normalize arr x :
  x ∈ normalize arr ↔ Str.truthy x = true ∧ ∃ y, x = normSymbol y ∧ y ∈ arr.
Proof.
  unfold normalize, JsSet.Array_from.
  by rewrite JsSetFacts.elem_of_new, list_elem_of_filter, list_elem_of_fmap.
Qed.

Lemma normalize_normalised arr : Forall normalised (normalize arr).
Proof.
  apply Forall_forall. intros x (Ht & y & -> & _)%elem_of_normalize.
  split; [apply normSymbol_idem|done].
Qed.

(** Normalising an already normalised, duplicate-free list changes
    nothing. *)
Lemma normalize_id l : NoDup l → Forall normalised l → normalize l = l.
Proof.
  intros Hnd Hn. unfold normalize, JsSet.Array_from.
  assert (filter (λ s, Str.truthy s = true) (normSymbol <$> l) = l) as ->.
  { induction Hn as [|x l [Hx Ht] _ IH]; [done|].
    apply NoDup_cons in Hnd as [_ Hnd].
    rewrite fmap_cons, Hx, filter_cons_True by done. by rewrite IH. }
  by apply JsSetFacts.new_id.
Qed.

(** ** Running the monadic code *)

Lemma mapi_returns {A B} (f : A → nat → M B) (P : A → B → Prop) :
  (∀ x i k, returns (f x i k) (P x)) →
  ∀ l i k, returns (mapi f i l k) (Forall2 P l).
Proof.
  intros Hf. induction l as [|x l IH]; intros i k; simpl.
  - eexists _, _. split; [reflexivity|constructor].
  - unfold bind. destruct (Hf x i k) as (y & k1 & -> & Hy).
    destruct (IH (S i) k1) as (ys & k2 & -> & Hys).
    eexists _, _. split; [reflexivity|by constructor].
Qed.

(** ** URL encoding of the symbols *)

Lemma codeUnits_bounded s : Forall (λ u, (u < 256)%N) (codeUnits s).
Proof.
  unfold codeUnits. induction s as [|c s IH]; simpl; constructor; [|done].
  apply N_ascii_bounded.
Qed.

(** Code units below 256 are no surrogates, so their encoding cannot
    throw. *)
Lemma Encode_total units :
  Forall (λ u, (u < 256)%N) units → is_Some (URI.Encode units).
Proof.
  induction 1 as [|u units Hu _ IH]; simpl; [by eexists|].
  destruct IH as [enc ->].
  destruct (URI.unescaped u); [by eexists|].
  assert (URI.isLowSurrogate u = false) as ->.
  { unfold URI.isLowSurrogate. apply andb_false_intro1, N.leb_gt. lia. }
  assert (URI.isHighSurrogate u = false) as ->.
  { unfold URI.isHighSurrogate. apply andb_false_intro1, N.leb_gt. lia. }
  by eexists.
Qed.

(** A symbol, a space, a Latin-1 letter, a surrogate pair (U+1F600) and
    the two ways a surrogate can stand alone. *)
Example Encode_examples :
  URI.Encode (codeUnits "BRK.B") = Some "BRK.B"
  ∧ URI.Encode (codeUnits "a b&c") = Some "a%20b%26c"
  ∧ URI.Encode [0xE9%N] = Some "%C3%A9"
  ∧ URI.Encode [0xD83D%N; 0xDE00%N] = Some "%F0%9F%98%80"
  ∧ URI.Encode [0x41%N; 0xD83D%N; 0x42%N] = None
  ∧ URI.Encode [0xDE00%N] = None.
Proof. by vm_compute. Qed.

(** On a symbol of the model [encodeURIComponent] returns, and reads no
    clock. *)
Lemma bind_encodeURIComponent {B} s (f : string → M B) k :
  bind (encodeURIComponent s) f k = f (default "" (URI.Encode (codeUnits s))) k.
Proof.
  unfold bind, encodeURIComponent.
  by destruct (Encode_total (codeUnits s) (codeUnits_bounded s)) as [enc ->].
Qed.

Section Facts.

Variable W : World.

(** *** Mock rows *)

Lemma makeMockRow_returns s i k :
  returns (makeMockRow W s i k) (λ r, symbol r = s ∧ mock_row W r).
Proof.
  assert (∃ r, makeMockRow W s i k = (Returned r, S (S k)) ∧ symbol r = s)
    as (r & E & Hs).
  { cbv [makeMockRow jitter bind Date_now ret]. eexists. split; reflexivity. }
  exists r, (S (S k)). split; [done|]. split; [done|].
  by exists s, i, k, (S (S k)).
Qed.

Lemma buildMock_returns syms k :
  returns (buildMock W syms k)
    (λ rs, symbol <$> rs
           = (if (0 <? length (normalize syms))%nat then normalize syms else defaultSymbols)
           ∧ Forall (mock_row W) rs).
Proof.
  unfold buildMock.
  destruct (mapi_returns (makeMockRow W) (λ s r, symbol r = s ∧ mock_row W r)
              makeMockRow_returns
              (if (0 <? length (normalize syms))%nat then normalize syms else defaultSymbols)
              0%nat k) as (rs & k' & -> & Hrs).
  eexists _, _. split; [reflexivity|]. split.
  - induction Hrs as [|s r l rs' [Hs _] _ IH]; [done|]. by rewrite fmap_cons, Hs, IH.
  - induction Hrs as [|s r l rs' [_ Hm] _ IH]; by constructor.
Qed.

(** *** The client adapter *)

Lemma fetchQuote_returns s k : returns (fetchQuote W s k) (λ _, True).
Proof.
  unfold returns, fetchQuote. rewrite !bind_encodeURIComponent.
  unfold catch, bind, fetch_json, resolveLastUpdated,
    toISOString_of, Date_now, throw, ret.
  repeat case_match; simplify_eq; eauto.
Qed.

Lemma served_indep s k : gotRow (fetchQuote W s k) = served W s.
Proof.
  unfold served, gotRow, fetchQuote. rewrite !bind_encodeURIComponent.
  unfold catch, bind, fetch_json, resolveLastUpdated,
    toISOString_of, Date_now, throw, ret.
  destruct (av_GLOBAL_QUOTE W s) as [| |[|note info [g|]]]; simpl; try done.
  all: destruct (Str.truthy_opt note || Str.truthy_opt info); simpl; try done.
  destruct (keys g =? 0)%nat; simpl; try done.
  destruct (num (gq_price g)), (num (gq_change g)), (num (gq_change_percent g));
    simpl; try done.
  destruct (Str.truthy_opt (gq_latest_day g) && _); simpl; try done.
  by destruct (Date_parse W _).
Qed.

Lemma fetchQuote_cases s k :
  (served W s = true ∧ returns (fetchQuote W s k) (λ o, ∃ r, o = Some r ∧ live_row W s r))
  ∨ (served W s = false ∧ returns (fetchQuote W s k) (λ o, o = None)).
Proof.
  destruct (fetchQuote_returns s k) as (o & k' & E & _).
  pose proof (served_indep s k) as Hs. rewrite E in Hs. simpl in Hs.
  destruct o as [r|].
  - left. split; [done|]. exists (Some r), k'. split; [done|].
    exists r. split; [done|]. by exists k, k'.
  - right. split; [done|]. by exists None, k'.
Qed.

(** A row of the client adapter never has a market capitalisation, and it
    is labelled with the provider's "01. symbol" when that is a non-empty
    string, with the requested symbol otherwise. *)
Lemma live_row_inv s r :
  live_row W s r → marketCap r = None ∧ symbol r = echoed W s.
Proof.
  intros (k & k' & E). revert E.
  unfold echoed, fetchQuote. rewrite !bind_encodeURIComponent.
  unfold catch, bind, fetch_json, resolveLastUpdated,
    toISOString_of, Date_now, throw, ret.
  repeat case_match; intros; simplify_eq; eauto; congruence.
Qed.

(** *** The client loop and merge *)

Lemma fetch_loop_returns todo rows failed k :
  returns (fetch_loop W todo rows failed k)
    (λ out, ∃ rs,
        out = (rows ++ rs, failed ++ filter (λ s, served W s = false) todo)
        ∧ Forall2 (live_row W) (filter (λ s, served W s = true) todo) rs).
Proof.
  revert rows failed k. induction todo as [|s todo IH]; intros rows failed k.
  - simpl. eexists _, _. split; [reflexivity|]. exists [].
    rewrite !app_nil_r. split; [done|constructor].
  - cbn [fetch_loop]. unfold bind at 1.
    destruct (fetchQuote_cases s k)
      as [(Hs & o & k1 & -> & r & -> & Hr) | (Hs & o & k1 & -> & ->)].
    + unfold bind at 1.
      assert ((if (0 <? length todo)%nat then sleep 250 else ret tt) k1
              = (Returned (), k1)) as -> by (by destruct (0 <? length todo)%nat).
      destruct (IH (rows ++ [r]) failed k1) as (out & k2 & -> & rs & -> & Hrs).
      eexists _, _. split; [reflexivity|]. exists (r :: rs).
      rewrite <- app_assoc, !filter_cons. simpl.
      repeat case_decide; try congruence.
      split; [done|by constructor].
    + unfold bind at 1.
      assert ((if (0 <? length todo)%nat then sleep 250 else ret tt) k1
              = (Returned (), k1)) as -> by (by destruct (0 <? length todo)%nat).
      destruct (IH rows (failed ++ [s]) k1) as (out & k2 & -> & rs & -> & Hrs).
      eexists _, _. split; [reflexivity|]. exists rs.
      rewrite <- app_assoc, !filter_cons. simpl.
      repeat case_decide; try congruence.
      split; [done|done].
Qed.

End Facts.

(** [merged.set] in a loop: a key is bound exactly when some row carries it,
    and then to a row of the list that carries it. *)
Lemma merge_from_lookup (rs : list StockData) (m : gmap string StockData) s r :
  foldl (λ m r, <[symbol r := r]> m) m rs !! s = Some r →
  (symbol r = s ∧ r ∈ rs) ∨ m !! s = Some r.
Proof.
  revert m. induction rs as [|x rs IH]; intros m; simpl; [by right|].
  intros [[? ?]|H]%IH.
  - left. split; [done|by right].
  - destruct (decide (symbol x = s)) as [<-|Hne].
    + rewrite lookup_insert_eq in H. simplify_eq. left. split; [done|by left].
    + rewrite lookup_insert_ne in H by done. by right.
Qed.

Lemma merge_lookup rs s r : merge rs !! s = Some r → symbol r = s ∧ r ∈ rs.
Proof.
  intros [H|H]%merge_from_lookup; [done|]. by rewrite lookup_empty in H.
Qed.

Lemma merge_from_is_Some (rs : list StockData) (m : gmap string StockData) s :
  s ∈ symbol <$> rs ∨ is_Some (m !! s) →
  is_Some (foldl (λ m r, <[symbol r := r]> m) m rs !! s).
Proof.
  revert m. induction rs as [|x rs IH]; intros m; simpl.
  - intros [H|H]; [by apply elem_of_nil in H|done].
  - intros [H|H]; apply IH.
    + apply elem_of_cons in H as [->|H]; [right|by left].
      rewrite lookup_insert_eq. by eexists.
    + right. destruct (decide (symbol x = s)) as [<-|Hne].
      * rewrite lookup_insert_eq. by eexists.
      * by rewrite lookup_insert_ne.
Qed.

Lemma merge_is_Some rs s : s ∈ symbol <$> rs → is_Some (merge rs !! s).
Proof. intros H. apply merge_from_is_Some. by left. Qed.

(** Reading the merged map in the order of [symbols] yields a sublist of
    [symbols], and the whole of it when every symbol is bound. *)
Lemma merged_order_sublist rs (symbols : list string) :
  symbol <$> omap (λ s, merge rs !! s) symbols `sublist_of` symbols.
Proof.
  induction symbols as [|s l IH]; simpl; [constructor|].
  destruct (merge rs !! s) as [r|] eqn:E; simpl.
  - apply merge_lookup in E as [-> _]. by constructor.
  - by constructor.
Qed.

Lemma merged_order_all rs (symbols : list string) :
  (∀ s, s ∈ symbols → s ∈ symbol <$> rs) →
  symbol <$> omap (λ s, merge rs !! s) symbols = symbols.
Proof.
  induction symbols as [|s l IH]; intros H; simpl; [done|].
  destruct (merge_is_Some rs s) as [r E]; [apply H; left|].
  rewrite E. simpl. apply merge_lookup in E as [-> _].
  f_equal. apply IH. intros s' Hs'. apply H. by right.
Qed.

(** ** The client entry point, path by path *)

Lemma filter_nil_Forall {A} (P : A → Prop) `{∀ x, Decision (P x)} (l : list A) :
  filter P l = [] → Forall (λ x, ¬ P x) l.
Proof.
  intros E. apply Forall_forall. intros x Hx HP.
  by apply (filter_nil_not_elem_of P l x E HP).
Qed.

Lemma filter_all {A} (P : A → Prop) `{∀ x, Decision (P x)} (l : list A) :
  Forall P l → filter P l = l.
Proof.
  induction 1 as [|x l Hx _ IH]; [done|]. by rewrite filter_cons_True, IH.
Qed.

Lemma Forall_filter_keep {A} (P Q : A → Prop) `{∀ x, Decision (P x)} (l : list A) :
  Forall Q l → Forall Q (filter P l).
Proof.
  rewrite !Forall_forall. intros HQ x [_ Hx]%list_elem_of_filter. by apply HQ.
Qed.

Section Client.

Variable W : World.

Local Abbreviation unserved := (λ s : string, served W s = false).
Local Abbreviation isServed := (λ s : string, served W s = true).

Lemma failed_normalize symbols :
  NoDup symbols → Forall normalised symbols →
  normalize (filter unserved symbols) = filter unserved symbols.
Proof.
  intros Hnd Hn. apply normalize_id.
  - by apply NoDup_filter.
  - by apply Forall_filter_keep.
Qed.

Lemma fetchStocks_cases input k :
  let symbols := normalize input in
  returns (fetchStocks W input k) (λ resp,
    ((Str.truthy_opt (API_KEY W) = false ∨ Forall unserved symbols)
     ∧ is_Some (error resp)
     ∧ symbol <$> stocks resp = effective symbols
     ∧ Forall (mock_row W) (stocks resp))
    ∨ (Str.truthy_opt (API_KEY W) = true
       ∧ is_Some (error resp)
       ∧ ∃ rows mocks,
           rows ≠ [] ∧ filter unserved symbols ≠ []
           ∧ Forall2 (live_row W) (filter isServed symbols) rows
           ∧ symbol <$> mocks = filter unserved symbols
           ∧ Forall (mock_row W) mocks
           ∧ stocks resp = omap (λ s, merge (rows ++ mocks) !! s) symbols)
    ∨ (Str.truthy_opt (API_KEY W) = true
       ∧ error resp = None
       ∧ symbols ≠ []
       ∧ Forall isServed symbols
       ∧ Forall2 (live_row W) symbols (stocks resp))).
Proof.
  intros symbols. unfold fetchStocks. fold symbols.
  assert (normalize symbols = symbols) as Hid
    by (apply normalize_id; [apply normalize_NoDup|apply normalize_normalised]).
  destruct (Str.truthy_opt (API_KEY W)) eqn:Hkey; simpl.
  - unfold bind at 1.
    destruct (fetch_loop_returns W symbols [] [] k)
      as (out & k1 & -> & rs & -> & Hrs). simpl.
    destruct (length rs =? 0)%nat eqn:Hlen.
    + (* nothing usable *)
      apply Nat.eqb_eq, length_zero_iff_nil in Hlen. subst rs.
      apply Forall2_nil_inv_r in Hrs.
      unfold bind. destruct (buildMock_returns W symbols k1) as (ms & k2 & -> & Hsym & Hm).
      eexists _, _. split; [reflexivity|]. left. simpl.
      rewrite Hid in Hsym. split_and!; [|by eexists|done|done].
      right. apply filter_nil_Forall in Hrs.
      eapply Forall_impl; [exact Hrs|]. intros s Hs. simpl in *.
      by destruct (served W s).
    + apply Nat.eqb_neq in Hlen.
      destruct (0 <? length (filter unserved symbols))%nat eqn:Hf.
      * (* partial fallback *)
        apply Nat.ltb_lt in Hf.
        unfold bind.
        destruct (buildMock_returns W (filter unserved symbols) k1)
          as (ms & k2 & -> & Hsym & Hm).
        eexists _, _. split; [reflexivity|]. right. left. simpl.
        rewrite failed_normalize in Hsym
          by (apply normalize_NoDup || apply normalize_normalised).
        apply Nat.ltb_lt in Hf as Hf'. rewrite Hf' in Hsym.
        split_and!; [done|by eexists|].
        exists rs, ms. split_and!; try done.
        -- intros ->. by apply Hlen.
        -- intros E. rewrite E in Hf. simpl in Hf. lia.
      * (* all good *)
        apply Nat.ltb_ge in Hf.
        assert (filter unserved symbols = []) as Hnone
          by (apply length_zero_iff_nil; lia).
        apply filter_nil_Forall in Hnone.
        assert (Forall isServed symbols) as Hall.
        { eapply Forall_impl; [exact Hnone|]. intros s Hs. simpl in *.
          by destruct (served W s). }
        rewrite (filter_all _ _ Hall) in Hrs.
        eexists _, _. split; [reflexivity|]. right. right. simpl.
        split_and!; try done.
        intros E. rewrite E in Hrs. apply Forall2_nil_inv_l in Hrs. by subst rs.
  - unfold bind. destruct (buildMock_returns W symbols k) as (ms & k2 & -> & Hsym & Hm).
    eexists _, _. split; [reflexivity|]. left. simpl.
    rewrite Hid in Hsym. split_and!; [by left|by eexists|done|done].
Qed.

End Client.

(** ** The handler, path by path *)

Lemma mockData_row_returns W s i k :
  returns (mockData_row W s i k) (λ r, symbol r = s).
Proof.
  assert (∃ r, mockData_row W s i k = (Returned r, S (S k)) ∧ symbol r = s)
    as (r & E & Hs).
  { cbv [mockData_row bind Date_now ret]. eexists. split; reflexivity. }
  by exists r, (S (S k)).
Qed.

Lemma mockData_returns W symbols k :
  returns (mockData W symbols k)
    (λ resp, symbol <$> stocks resp = symbols ∧ is_Some (error resp)).
Proof.
  unfold mockData, bind.
  destruct (mapi_returns (mockData_row W) (λ s r, symbol r = s)
              (mockData_row_returns W) symbols 0%nat k) as (rs & k' & -> & Hrs).
  eexists _, _. split; [reflexivity|]. simpl. split; [|by eexists].
  induction Hrs as [|s r l rs' Hs _ IH]; [done|]. by rewrite fmap_cons, Hs, IH.
Qed.

Lemma collect_returns quote ok :
  adapter_ok quote ok →
  ∀ todo out k,
    returns (collect quote todo out k)
      (λ out', ∃ rs, out' = out ++ rs ∧ symbol <$> rs = filter (λ s, ok s = true) todo).
Proof.
  intros Hq. induction todo as [|s todo IH]; intros out k.
  - simpl. eexists _, _. split; [reflexivity|]. exists []. by rewrite app_nil_r.
  - cbn [collect]. unfold bind at 1.
    destruct (Hq s k) as (o & k1 & -> & Ho). destruct o as [r|].
    + destruct Ho as [Hs Hr].
      destruct (IH (out ++ [r]) k1) as (out' & k2 & -> & rs & -> & Hrs).
      eexists _, _. split; [reflexivity|]. exists (r :: rs).
      rewrite <- app_assoc. split; [done|].
      by rewrite fmap_cons, Hr, Hrs, filter_cons_True.
    + destruct (IH out k1) as (out' & k2 & -> & rs & -> & Hrs).
      eexists _, _. split; [reflexivity|]. exists rs. split; [done|].
      rewrite filter_cons_False; [done|]. by rewrite Ho.
Qed.

Section Handler.

Variable W : World.

Lemma finnhubQuote_ok : adapter_ok (finnhubQuote W) (fh_served W).
Proof.
  intros s k.
  unfold fh_served, gotRow, finnhubQuote, catch, bind, fetch_json,
    Date_now, throw, ret.
  destruct (finnhub_quote W s) as [| |[|[c|] d dp pc v]]; simpl; try returned.
  destruct (finnhub_profile2 W s) as [| |p]; simpl; returned.
Qed.

Lemma alphaVantageQuote_ok : adapter_ok (alphaVantageQuote W) (av_served W).
Proof.
  intros s k.
  unfold av_served, gotRow, alphaVantageQuote, catch, bind, fetch_json,
    resolveLastUpdated, toISOString_of, Date_now, throw, ret.
  destruct (av_GLOBAL_QUOTE W s) as [| |[|note info [g|]]]; simpl; try returned.
  all: destruct (Str.truthy_opt note); simpl; try returned.
  destruct (num_handler (gq_price g)), (num_handler (gq_change g)),
    (num_handler (gq_change_percent g)); simpl; try returned.
  destruct (av_OVERVIEW W s) as [| |o]; simpl;
    (destruct (Str.truthy_opt (gq_latest_day g) && _); simpl;
     [destruct (Date_parse W _); simpl|]; returned).
Qed.

Lemma fromFinnhub_returns symbols k :
  returns (fromFinnhub W symbols k)
    (λ resp, symbol <$> stocks resp = filter (λ s, fh_served W s = true) symbols
             ∧ (error resp = None ↔ stocks resp ≠ [])).
Proof.
  unfold fromFinnhub, bind.
  destruct (collect_returns _ _ finnhubQuote_ok symbols [] k)
    as (out & k1 & -> & rs & -> & Hrs).
  eexists _, _. split; [reflexivity|]. simpl.
  destruct rs as [|r rs]; simpl; [|done]. split; [done|]. split; done.
Qed.

Lemma fromAV_returns symbols k :
  returns (fromAV W symbols k)
    (λ resp, symbol <$> stocks resp = filter (λ s, av_served W s = true) symbols
             ∧ (error resp = None ↔ stocks resp ≠ [])).
Proof.
  unfold fromAV, bind.
  destruct (collect_returns _ _ alphaVantageQuote_ok symbols [] k)
    as (out & k1 & -> & rs & -> & Hrs).
  eexists _, _. split; [reflexivity|]. simpl.
  destruct rs as [|r rs]; simpl; [|done]. split; [done|]. split; done.
Qed.

Lemma stocks_nil_iff (resp : StockApiResponse) (l : list string) :
  symbol <$> stocks resp = l →
  (length (stocks resp) =? 0)%nat = negb (0 <? length l)%nat.
Proof. intros <-. rewrite length_fmap. by destruct (stocks resp). Qed.

Lemma handler_cases q k :
  let symbols := query_symbols q in
  returns (handler W q k) (λ resp,
    (handler_live W symbols = []
     ∧ symbol <$> stocks resp = symbols ∧ is_Some (error resp))
    ∨ (handler_live W symbols ≠ []
       ∧ symbol <$> stocks resp = handler_live W symbols ∧ error resp = None)).
Proof.
  intros symbols. unfold handler, handler_live. fold (query_symbols q). fold symbols.
  assert (∀ l : list string, (0 <? length l)%nat = true → l ≠ []) as Hne.
  { intros [|] ?; [done|done]. }
  assert (∀ l : list string, (0 <? length l)%nat = false → l = []) as Hnil.
  { intros [|] ?; [done|done]. }
  destruct (Str.truthy_opt (FINN_KEY W)) eqn:Hf.
  - unfold bind at 1.
    destruct (fromFinnhub_returns symbols k) as (r1 & k1 & -> & Hs1 & He1).
    rewrite (stocks_nil_iff _ _ Hs1).
    destruct (0 <? length (filter (λ s, fh_served W s = true) symbols))%nat eqn:Hl1; simpl.
    + unfold bind, ret. rewrite (stocks_nil_iff _ _ Hs1), Hl1. simpl.
      eexists _, _. split; [reflexivity|]. right.
      split_and!; [by apply Hne|done|].
      apply He1. intros E. rewrite E in Hs1. simpl in Hs1.
      rewrite <- Hs1 in Hl1. done.
    + destruct (Str.truthy_opt (AV_KEY W)) eqn:Ha.
      * unfold bind at 1.
        destruct (fromAV_returns symbols k1) as (r2 & k2 & -> & Hs2 & He2).
        rewrite (stocks_nil_iff _ _ Hs2).
        destruct (0 <? length (filter (λ s, av_served W s = true) symbols))%nat eqn:Hl2; simpl.
        -- eexists _, _. split; [reflexivity|]. right.
           split_and!; [by apply Hne|done|].
           apply He2. intros E. rewrite E in Hs2. simpl in Hs2.
           rewrite <- Hs2 in Hl2. done.
        -- destruct (mockData_returns W symbols k2) as (r3 & k3 & -> & Hs3 & He3).
           eexists _, _. split; [reflexivity|]. left. split_and!; [by apply Hnil|done|done].
      * unfold bind, ret. rewrite (stocks_nil_iff _ _ Hs1), Hl1. simpl.
        destruct (mockData_returns W symbols k1) as (r3 & k3 & -> & Hs3 & He3).
        eexists _, _. split; [reflexivity|]. left. split_and!; [done..].
  - simpl. destruct (Str.truthy_opt (AV_KEY W)) eqn:Ha.
    + unfold bind at 1.
      destruct (fromAV_returns symbols k) as (r2 & k2 & -> & Hs2 & He2).
      rewrite (stocks_nil_iff _ _ Hs2).
      destruct (0 <? length (filter (λ s, av_served W s = true) symbols))%nat eqn:Hl2; simpl.
      * eexists _, _. split; [reflexivity|]. right.
        split_and!; [by apply Hne|done|].
        apply He2. intros E. rewrite E in Hs2. simpl in Hs2.
        rewrite <- Hs2 in Hl2. done.
      * destruct (mockData_returns W symbols k2) as (r3 & k3 & -> & Hs3 & He3).
        eexists _, _. split; [reflexivity|]. left. split_and!; [by apply Hnil|done|done].
    + destruct (mockData_returns W symbols k) as (r3 & k3 & -> & Hs3 & He3).
      eexists _, _. split; [reflexivity|]. left. split_and!; [done..].
Qed.

End Handler.

(** ** Numbers and the mock generators *)

Module NumFacts.

Local Open Scope Q_scope.

Lemma floor_fraction (x : Q) :
  0 <= x + - inject_Z (Qfloor x) ∧ x + - inject_Z (Qfloor x) < 1.
Proof.
  pose proof (Qfloor_le x) as Hlo. pose proof (Qlt_floor x) as Hhi.
  rewrite inject_Z_plus in Hhi. change (inject_Z 1) with 1 in Hhi.
  split; lra.
Qed.

(** [Math.round] is within one half of its argument. *)
Lemma roundQ_close (q : Q) :
  q - (1 # 2) < inject_Z (Num.roundQ q) ∧ inject_Z (Num.roundQ q) <= q + (1 # 2).
Proof.
  unfold Num.roundQ.
  pose proof (Qfloor_le (q + (1 # 2))) as Hlo.
  pose proof (Qlt_floor (q + (1 # 2))) as Hhi.
  rewrite inject_Z_plus in Hhi. change (inject_Z 1) with 1 in Hhi.
  split; lra.
Qed.

(** [+x.toFixed(2)] is a whole number of hundredths, at most half a
    hundredth away from [x]. *)
Lemma toFixed2Q_spec (q : Q) :
  Qabs q < inject_Z (10 ^ 21) →
  ∃ n : Z, Num.toFixed2Q q == inject_Z n / 100
           ∧ - (1 # 200) <= Num.toFixed2Q q - q ∧ Num.toFixed2Q q - q <= 1 # 200.
Proof.
  intros Hsmall. unfold Num.toFixed2Q.
  destruct (Qle_bool (inject_Z (10 ^ 21)) (Qabs q)) eqn:Hbig.
  { apply Qle_bool_iff in Hbig. lra. }
  destruct (Num.isNeg q).
  - exists (- Qfloor (- q * 100 + (1 # 2)))%Z.
    pose proof (Qfloor_le (- q * 100 + (1 # 2))) as Hlo.
    pose proof (Qlt_floor (- q * 100 + (1 # 2))) as Hhi.
    rewrite inject_Z_plus in Hhi. change (inject_Z 1) with 1 in Hhi.
    rewrite inject_Z_opp.
    set (f := inject_Z (Qfloor (- q * 100 + (1 # 2)))) in *.
    split; [field|].
    unfold Qdiv. change (/ 100) with (1 # 100). split; lra.
  - exists (Qfloor (q * 100 + (1 # 2))).
    pose proof (Qfloor_le (q * 100 + (1 # 2))) as Hlo.
    pose proof (Qlt_floor (q * 100 + (1 # 2))) as Hhi.
    rewrite inject_Z_plus in Hhi. change (inject_Z 1) with 1 in Hhi.
    set (f := inject_Z (Qfloor (q * 100 + (1 # 2)))) in *.
    split; [reflexivity|].
    unfold Qdiv. change (/ 100) with (1 # 100). split; lra.
Qed.


End NumFacts.

Lemma minuteOf_bucket ms : minuteOf ms = minuteBucket ms.
Proof. unfold minuteOf, minuteBucket. by rewrite Z.div_div. Qed.

Section Mock.

Variable W : World.

Local Open Scope Q_scope.

Lemma jitter_fraction (q : Q) (k : nat) :
  ∃ r, jitter W (Fin q) k = (Returned (Fin r), S k) ∧ 0 <= r ∧ r < 1.
Proof.
  unfold jitter, bind, Date_now, ret.
  cbn [Num.ofZ Num.mul Num.add Num.sub Num.neg Num.floor sinJ].
  eexists. split; [reflexivity|]. apply NumFacts.floor_fraction.
Qed.

Lemma makeMockRow_numbers s i k :
  Str.truthy s = true →
  ∃ row k' r,
    makeMockRow W s i k = (Returned row, k')
    ∧ (0 <= r ∧ r < 1)
    ∧ mock_numbers (client_baseline s i) 0.85 0.3 r row.
Proof.
  intros Hs. destruct s as [|c s]; [discriminate|].
  unfold makeMockRow. unfold bind at 1.
  cbn [Str.charCodeAt0 opt_num Num.ofNat Num.add].
  destruct (jitter_fraction
              (inject_Z (Z.of_nat i) + inject_Z (Z.of_nat (Str.code c))) k)
    as (r & -> & Hr).
  unfold bind, Date_now, ret. eexists _, _, r. split; [reflexivity|].
  split; [done|]. unfold mock_numbers, client_baseline.
  cbn [price change changePercent volume marketCap]. done.
Qed.

Lemma mockData_row_numbers s i k :
  (∀ x, -1 <= Math_sin W x ∧ Math_sin W x <= 1) →
  ∃ row k' r,
    mockData_row W s i k = (Returned row, k')
    ∧ (0 <= r ∧ r <= 1)
    ∧ mock_numbers (handler_baseline s i) 0.8 0.4 r row.
Proof.
  intros Hsin. unfold mockData_row, bind, Date_now, ret.
  cbn [Num.ofNat Num.ofZ sinJ Num.mul Num.add].
  set (x := Math_sin W _).
  eexists _, _, (x * 0.5 + 0.5). split; [reflexivity|]. split.
  - destruct (Hsin (inject_Z (Z.of_nat i) * 997 + inject_Z (minuteOf (clock W k)))) as [Hlo Hhi].
    fold x in Hlo, Hhi. split; lra.
  - unfold mock_numbers, handler_baseline.
    cbn [price change changePercent volume marketCap]. done.
Qed.

End Mock.


(** ** Results about the client entry point *)

Lemma Forall2_elem_of_r {A B} (P : A → B → Prop) l k y :
  Forall2 P l k → y ∈ k → ∃ x, x ∈ l ∧ P x y.
Proof.
  induction 1 as [|x y' l k Hxy _ IH]; intros Hy.
  - by apply elem_of_nil in Hy.
  - apply elem_of_cons in Hy as [->|Hy].
    + exists x. split; [left|done].
    + destruct (IH Hy) as (x' & ? & ?). exists x'. split; [by right|done].
Qed.

Lemma effective_nonempty (l : list string) : l ≠ [] → effective l = l.
Proof. by destruct l. Qed.

Lemma effective_not_nil (l : list string) : effective l ≠ [].
Proof. by destruct l. Qed.

Section ClientResults.

Variable W : World.

Lemma live_rows_symbols (l : list string) (rows : list StockData) :
  Forall2 (live_row W) l rows →
  (∀ s, s ∈ l → echoed W s = s) →
  symbol <$> rows = l.
Proof.
  induction 1 as [|s r l rows Hr _ IH]; intros He; [done|].
  apply live_row_inv in Hr as [_ Hr].
  rewrite fmap_cons, Hr, He by left. f_equal. apply IH.
  intros s' Hs'. apply He. by right.
Qed.

(** The diagnostic is absent exactly when a key is configured, some symbol
    was requested, and the adapter served every requested symbol. *)
Lemma fetchStocks_error_iff input k :
  returns (fetchStocks W input k) (λ resp,
    error resp = None ↔
      Str.truthy_opt (API_KEY W) = true
      ∧ normalize input ≠ []
      ∧ Forall (λ s, served W s = true) (normalize input)).
Proof.
  destruct (fetchStocks_cases W input k) as (resp & k' & E & Hc).
  exists resp, k'. split; [done|].
  destruct Hc as [(Hwhy & [e He] & _) | [(Hkey & [e He] & rows & mocks & _ & Hf & _)
                                        | (Hkey & He & Hne & Hall & _)]].
  - rewrite He. split; [done|]. intros (Hkey & Hne & Hall).
    destruct Hwhy as [Hno|Hnone]; [congruence|].
    destruct (normalize input) as [|s l]; [done|].
    apply Forall_cons in Hall as [H1 _]. apply Forall_cons in Hnone as [H2 _].
    congruence.
  - rewrite He. split; [done|]. intros (_ & _ & Hall).
    destruct Hf. apply length_zero_iff_nil.
    destruct (filter _ _) as [|s l] eqn:Ef; [done|].
    assert (s ∈ filter (λ s, served W s = false) (normalize input)) as Hs
      by (rewrite Ef; left).
    apply list_elem_of_filter in Hs as [Hs1 Hs2].
    rewrite Forall_forall in Hall. specialize (Hall s Hs2). simpl in *. congruence.
  - split; [done|]. by intros _.
Qed.

(** Every row of the result is a mock row or a row the adapter returned
    for one of the requested symbols. *)
Lemma fetchStocks_rows input k :
  returns (fetchStocks W input k) (λ resp,
    Forall (λ r, mock_row W r ∨ ∃ s, s ∈ normalize input ∧ live_row W s r)
           (stocks resp)).
Proof.
  destruct (fetchStocks_cases W input k) as (resp & k' & E & Hc).
  exists resp, k'. split; [done|].
  destruct Hc as [(_ & _ & _ & Hm) | [(_ & _ & rows & mocks & _ & _ & Hr & _ & Hm & ->)
                                     | (_ & _ & _ & _ & Hr)]].
  - eapply Forall_impl; [exact Hm|]. by left.
  - apply Forall_forall. intros r (s & _ & Hs)%list_elem_of_omap.
    apply merge_lookup in Hs as [_ [Hin|Hin]%elem_of_app].
    + right. destruct (Forall2_elem_of_r _ _ _ _ Hr Hin) as (s' & Hs' & Hl).
      apply list_elem_of_filter in Hs' as [_ Hs']. by exists s'.
    + left. rewrite Forall_forall in Hm. by apply Hm.
  - apply Forall_forall. intros r Hin. right.
    destruct (Forall2_elem_of_r _ _ _ _ Hr Hin) as (s' & Hs' & Hl). by exists s'.
Qed.

(** When every served symbol is echoed faithfully, the result lists
    exactly the effective symbols, in their order. *)
Lemma fetchStocks_symbols input k :
  (∀ s, s ∈ normalize input → served W s = true → echoed W s = s) →
  returns (fetchStocks W input k) (λ resp,
    symbol <$> stocks resp = effective (normalize input)).
Proof.
  intros Hecho.
  destruct (fetchStocks_cases W input k) as (resp & k' & E & Hc).
  exists resp, k'. split; [done|].
  destruct Hc as [(_ & _ & Hs & _) | [(_ & _ & rows & mocks & Hne & _ & Hr & Hm & _ & ->)
                                     | (_ & _ & Hne & Hall & Hr)]].
  - done.
  - assert (symbol <$> rows = filter (λ s, served W s = true) (normalize input)) as Hrows.
    { apply live_rows_symbols; [done|].
      intros s [Hs1 Hs2]%list_elem_of_filter. by apply Hecho. }
    rewrite effective_nonempty.
    + apply merged_order_all. intros s Hs.
      rewrite fmap_app, elem_of_app, Hrows, Hm, !list_elem_of_filter.
      destruct (served W s) eqn:Es; [left|right]; done.
    + intros Hnil. rewrite Hnil in Hrows. simpl in Hrows.
      apply fmap_nil_inv in Hrows. done.
  - rewrite effective_nonempty by done.
    apply live_rows_symbols; [done|]. intros s Hs. apply Hecho; [done|].
    rewrite Forall_forall in Hall. by apply Hall.
Qed.

(** The client never answers with an empty list: an empty normalised
    request is answered for the default symbols. *)
Lemma fetchStocks_nonempty input k :
  returns (fetchStocks W input k) (λ resp,
    stocks resp ≠ []
    ∧ (normalize input = [] → symbol <$> stocks resp = defaultSymbols)).
Proof.
  destruct (fetchStocks_cases W input k) as (resp & k' & E & Hc).
  exists resp, k'. split; [done|].
  destruct Hc as [(_ & _ & Hs & _) | [(_ & _ & rows & mocks & Hne & Hf & Hr & Hm & _ & ->)
                                     | (_ & _ & Hne & Hall & Hr)]].
  - split.
    + intros Hnil. rewrite Hnil in Hs. by apply (effective_not_nil (normalize input)).
    + intros Hnil. by rewrite Hs, Hnil.
  - assert (normalize input ≠ []) as Hsym.
    { intros Hnil. rewrite Hnil in Hf. done. }
    split; [|done].
    destruct (filter (λ s, served W s = false) (normalize input)) as [|s l] eqn:Ef; [done|].
    assert (s ∈ normalize input) as Hs.
    { assert (s ∈ filter (λ s, served W s = false) (normalize input)) as Hs
        by (rewrite Ef; left).
      by apply list_elem_of_filter in Hs as [_ Hs]. }
    destruct (merge_is_Some (rows ++ mocks) s) as [r Hr'].
    { rewrite fmap_app, elem_of_app, Hm. right. left. }
    intros Hnil.
    assert (r ∈ omap (λ s, merge (rows ++ mocks) !! s) (normalize input)) as Hin.
    { apply list_elem_of_omap. by exists s. }
    rewrite Hnil in Hin. by apply elem_of_nil in Hin.
  - split; [|done]. intros Hnil. rewrite Hnil in Hr.
    apply Forall2_nil_inv_r in Hr. done.
Qed.

End ClientResults.

(** ** Results about the handler *)

Lemma handler_live_sublist W (symbols : list string) :
  handler_live W symbols `sublist_of` symbols.
Proof.
  unfold handler_live.
  destruct (Str.truthy_opt (FINN_KEY W)), (Str.truthy_opt (AV_KEY W));
    simpl; repeat case_match; auto using sublist_filter, sublist_nil_l.
Qed.

Lemma handler_symbols_sublist W q k :
  returns (handler W q k) (λ resp,
    symbol <$> stocks resp `sublist_of` query_symbols q).
Proof.
  destruct (handler_cases W q k) as (resp & k' & E & Hc).
  exists resp, k'. split; [done|].
  destruct Hc as [(_ & -> & _) | (_ & -> & _)]; [done|apply handler_live_sublist].
Qed.

(** ** Results about the numeric normalizer of the client *)

Lemma num_absent : num None = None.
Proof. reflexivity. Qed.

Lemma num_finite s x : num s = Some x → Num.isFinite x = true.
Proof.
  unfold num. destruct s as [s|]; [|done].
  destruct (Num.isFinite _) eqn:E; [|done]. by intros [= <-].
Qed.

(** A row of the client adapter has finite mandatory fields. *)
Lemma live_row_finite W s r :
  live_row W s r →
  Num.isFinite (price r) = true
  ∧ Num.isFinite (change r) = true
  ∧ Num.isFinite (changePercent r) = true.
Proof.
  intros (k & k' & E). revert E.
  unfold fetchQuote. rewrite !bind_encodeURIComponent.
  unfold catch, bind, fetch_json, resolveLastUpdated,
    toISOString_of, Date_now, throw, ret.
  repeat case_match; intros; simplify_eq; simpl; split_and!; eauto using num_finite.
Qed.

(** ** The model on concrete inputs *)

Example normalize_example :
  normalize ["aapl"; "AAPL"; " msft "; "  "] = ["AAPL"; "MSFT"].
Proof. reflexivity. Qed.

Example uniqueSymbols_examples :
  uniqueSymbols None = defaultSymbols
  ∧ uniqueSymbols (Some "aapl, msft,,aapl") = ["AAPL"; "MSFT"]
  ∧ uniqueSymbols (Some " , ") = [].
Proof. by vm_compute. Qed.

Example Number_examples :
  StringToNumber.Number " -2.5e3 " = Fin (-2500)
  ∧ StringToNumber.Number "0x1F" = Fin 31
  ∧ StringToNumber.Number "" = Fin 0
  ∧ StringToNumber.Number "5." = Fin 5
  ∧ StringToNumber.Number "." = NaN
  ∧ StringToNumber.Number "1e" = NaN
  ∧ StringToNumber.Number "12px" = NaN
  ∧ StringToNumber.Number "-Infinity" = Inf true
  ∧ StringToNumber.Number "1e999" = Inf false.
Proof. by vm_compute. Qed.

Example toFixed2_examples :
  (Num.toFixed2Q 2.344 == 2.34 ∧ Num.toFixed2Q 2.345 == 2.35
   ∧ Num.toFixed2Q (-2.345) == -2.35 ∧ Num.roundQ (-2.5) = (-2)%Z)%Q.
Proof. by vm_compute. Qed.

(** The adapters of the handler do end in an exception when a fetch is
    rejected; it is the [catch] at their call site that stops it. *)
Example handler_adapters_throw :
  alphaVantageQuote offline "AAPL" 0 = (Thrown NetworkError, 0%nat)
  ∧ finnhubQuote offline "AAPL" 0 = (Thrown NetworkError, 0%nat)
  ∧ catch (finnhubQuote offline "AAPL") (ret None) 0 = (Returned None, 0%nat).
Proof. by vm_compute. Qed.

(** Without credentials the client answers a request for aapl, AAPL and
    msft with two mock rows and a diagnostic. *)
Example client_without_key :
  ∃ resp k',
    fetchStocks offline ["aapl"; "AAPL"; " msft "] 0 = (Returned resp, k')
    ∧ symbol <$> stocks resp = ["AAPL"; "MSFT"]
    ∧ Forall (mock_row offline) (stocks resp)
    ∧ error resp = Some "No Alpha Vantage key found. Showing mock data.".
Proof.
  destruct (fetchStocks_cases offline ["aapl"; "AAPL"; " msft "] 0)
    as (resp & k' & E & [(_ & _ & Hs & Hm) | [(Hk & _) | (Hk & _)]]);
    [|discriminate Hk..].
  exists resp, k'. split; [done|]. split; [done|]. split; [done|].
  revert E. vm_compute. by intros [= <- _].
Qed.

(** On the client a partial failure is filled with mock rows and
    reported. *)
Example client_partial_fallback :
  ∃ resp k',
    fetchStocks rateLimitedAfterFirst ["msft"; "AAPL"; "zzz"] 0 = (Returned resp, k')
    ∧ symbol <$> stocks resp = ["MSFT"; "AAPL"; "ZZZ"]
    ∧ is_Some (error resp).
Proof.
  eexists _, _. split; [vm_compute; reflexivity|]. split; [by vm_compute|by eexists].
Qed.

(** * The claims *)

(** ** C1: the diagnostic *)

(** C1, on the handler.  With a Finnhub key only, a request for AAPL and
    MSFT in which Finnhub serves AAPL and has no quote for MSFT is answered
    with the AAPL row alone and without a diagnostic, although MSFT was not
    satisfied by a live row.  (On the client the diagnostic is present
    exactly when some symbol was not served: [fetchStocks_error_iff].) *)
Theorem handler_partial_failure_has_no_diagnostic :
  ∃ resp k',
    handler finnhubPartial (QueryOk (Some "AAPL,MSFT")) 0 = (Returned resp, k')
    ∧ query_symbols (QueryOk (Some "AAPL,MSFT")) = ["AAPL"; "MSFT"]
    ∧ fh_served finnhubPartial "MSFT" = false
    ∧ symbol <$> stocks resp = ["AAPL"]
    ∧ error resp = None.
Proof. eexists _, _. split; [vm_compute; reflexivity|]. by vm_compute. Qed.

(** ** C2: one record per symbol *)

(** C2, on the handler.  With an Alpha Vantage key only, a request for
    three symbols of which the provider serves one and rate-limits two is
    answered with one record. *)
Theorem handler_partial_failure_drops_symbols :
  ∃ resp k',
    handler rateLimitedAfterFirst (QueryOk (Some "msft,AAPL,zzz")) 0 = (Returned resp, k')
    ∧ query_symbols (QueryOk (Some "msft,AAPL,zzz")) = ["MSFT"; "AAPL"; "ZZZ"]
    ∧ symbol <$> stocks resp = ["AAPL"]
    ∧ length (stocks resp) = 1%nat.
Proof. eexists _, _. split; [vm_compute; reflexivity|]. by vm_compute. Qed.

(** ** C3: failures and the [error] field *)

(** What the [try] block of [fetchQuote] and the [.catch] at the handler's
    call sites achieve.  Whatever the providers do (a rejected fetch, a
    body that is not JSON, a null or rate-limit payload, a date that
    cannot be rendered), [fetchStocks] and [handler] return a response for
    the symbols of the model, the strings without a surrogate. *)
Lemma provider_faults_are_caught (W : World) :
  (∀ input k, ∃ resp k', fetchStocks W input k = (Returned resp, k'))
  ∧ (∀ q k, ∃ resp k', handler W q k = (Returned resp, k')).
Proof.
  split.
  - intros input k. destruct (fetchStocks_cases W input k) as (resp & k' & E & _).
    by exists resp, k'.
  - intros q k. destruct (handler_cases W q k) as (resp & k' & E & _).
    by exists resp, k'.
Qed.

(** C3 fails on two inputs.  On the handler, with a Finnhub key only, a
    request for AAPL and MSFT in which the connection for the MSFT quote
    fails: the adapter ends in the exception, the call site turns it into
    null, and the answer is the AAPL row alone with no [error], so the
    failure is encoded nowhere.  On the client, the URL of a quote is
    encoded before the [try] block of [fetchQuote] is entered, and the
    encoding of a symbol that is one unpaired surrogate throws: a URIError
    that nothing catches. *)
Theorem failure_not_encoded_in_error :
  (∃ resp k',
     handler finnhubUnreachable (QueryOk (Some "AAPL,MSFT")) 0 = (Returned resp, k')
     ∧ query_symbols (QueryOk (Some "AAPL,MSFT")) = ["AAPL"; "MSFT"]
     ∧ finnhubQuote finnhubUnreachable "MSFT" 0 = (Thrown NetworkError, 0%nat)
     ∧ symbol <$> stocks resp = ["AAPL"]
     ∧ error resp = None)
  ∧ URI.Encode [0xD800%N] = None.
Proof.
  split; [|reflexivity].
  eexists _, _. split; [vm_compute; reflexivity|]. by vm_compute.
Qed.

(** ** C4: output order *)

(** C4 as stated fails on the client: when the provider labels the quote
    for AAPL as MSFT and the quote for MSFT as AAPL, the rows come back in
    the order MSFT, AAPL for the request AAPL, MSFT. *)
Lemma swapped_echo_breaks_order :
  ∃ resp k',
    fetchStocks swappedEcho ["AAPL"; "MSFT"] 0 = (Returned resp, k')
    ∧ normalize ["AAPL"; "MSFT"] = ["AAPL"; "MSFT"]
    ∧ symbol <$> stocks resp = ["MSFT"; "AAPL"]
    ∧ symbol <$> stocks resp ≠ normalize ["AAPL"; "MSFT"].
Proof. eexists _, _. split; [vm_compute; reflexivity|]. by vm_compute. Qed.

(** C4, amended.  On the client, when every served symbol is labelled by
    the provider with the symbol that was requested, the symbols of the
    output are exactly the normalised request (the default set when that
    is empty), in order.  On the handler, when the providers serve none of
    the requested symbols or the provider that answers serves all of them,
    the symbols of the output are exactly the normalised request, in
    order.  (A request that the answering provider serves in part is the
    subject of C2.) *)
Theorem output_follows_normalized_order (W : World) :
  (∀ input k,
     (∀ s, s ∈ normalize input → served W s = true → echoed W s = s) →
     ∃ resp k',
       fetchStocks W input k = (Returned resp, k')
       ∧ symbol <$> stocks resp = effective (normalize input))
  ∧ (∀ q k,
       handler_live W (query_symbols q) = []
       ∨ handler_live W (query_symbols q) = query_symbols q →
       ∃ resp k',
         handler W q k = (Returned resp, k')
         ∧ symbol <$> stocks resp = query_symbols q).
Proof.
  split.
  - intros input k Hecho.
    destruct (fetchStocks_symbols W input k Hecho) as (resp & k' & E & H).
    by exists resp, k'.
  - intros q k Hall. destruct (handler_cases W q k) as (resp & k' & E & Hc).
    exists resp, k'. split; [done|].
    destruct Hc as [(_ & Hs & _) | (Hne & Hs & _)]; [done|].
    destruct Hall as [Hnil | Hfull]; [done|]. by rewrite Hs.
Qed.

Lemma output_follows_normalized_order_witness :
  (∃ resp k',
     fetchStocks rateLimitedAfterFirst ["msft"; "AAPL"; " msft "; "zzz"] 0
     = (Returned resp, k')
     ∧ symbol <$> stocks resp = ["MSFT"; "AAPL"; "ZZZ"])
  ∧ (handler_live faithfulEcho (query_symbols (QueryOk (Some "msft, AAPL,msft")))
     = query_symbols (QueryOk (Some "msft, AAPL,msft"))
     ∧ ∃ resp k',
         handler faithfulEcho (QueryOk (Some "msft, AAPL,msft")) 0 = (Returned resp, k')
         ∧ symbol <$> stocks resp = ["MSFT"; "AAPL"]).
Proof.
  split.
  - apply (proj1 (output_follows_normalized_order rateLimitedAfterFirst)
             ["msft"; "AAPL"; " msft "; "zzz"] 0%nat).
    intros s Hs _. unfold echoed. simpl.
    destruct (String.eqb s "AAPL"); [|reflexivity].
    by destruct s.
  - split; [by vm_compute|].
    apply (proj2 (output_follows_normalized_order faithfulEcho)
             (QueryOk (Some "msft, AAPL,msft")) 0%nat).
    right. by vm_compute.
Defined.

(** ** C5: the numeric normalizer *)

(** The client's [num] does what C5 says: absent stays absent, a result is
    always finite, and the four examples come out as stated. *)
Lemma num_examples :
  (∃ q, num (Some "1,234.56") = Some (Fin q) ∧ (q == 1234.56)%Q)
  ∧ (∃ q, num (Some "2.3%") = Some (Fin q) ∧ (q == 2.3)%Q)
  ∧ num None = None
  ∧ num (Some "abc") = None
  ∧ num (Some "Infinity") = None
  ∧ num (Some "1e999") = None.
Proof.
  split_and!; try (by vm_compute); eexists; (split; [vm_compute; reflexivity|done]).
Qed.

(** C5, on the handler.  The handler's own [num] has no finiteness test:
    it maps "abc" to NaN and an overflowing literal to Infinity instead of
    absent, where the client's [num] answers absent. *)
Theorem handler_num_keeps_unparseable :
  num_handler (Some "abc") = Some NaN
  ∧ num_handler (Some "1e999") = Some (Inf false)
  ∧ num (Some "abc") = None
  ∧ num (Some "1e999") = None.
Proof. by vm_compute. Qed.

(** ** C6: mandatory fields *)

(** C6, on the handler.  For a "Global Quote" whose price is "abc" the
    handler's Alpha Vantage adapter returns a record with price NaN, and
    the handler passes it on without a diagnostic; the client's adapter
    returns no-data for the same payload.  (The records of the client's
    adapter always have finite mandatory fields: [live_row_finite].) *)
Theorem handler_adapter_accepts_unparseable_price :
  (∃ row k',
     alphaVantageQuote garbledPrice "AAPL" 0 = (Returned (Some row), k')
     ∧ price row = NaN)
  ∧ (∃ resp k',
       handler garbledPrice (QueryOk (Some "AAPL")) 0 = (Returned resp, k')
       ∧ price <$> stocks resp = [NaN]
       ∧ error resp = None)
  ∧ fetchQuote garbledPrice "AAPL" 0 = (Returned None, 0%nat).
Proof.
  split_and!.
  - eexists _, _. split; [vm_compute; reflexivity|done].
  - eexists _, _. split; [vm_compute; reflexivity|done].
  - by vm_compute.
Qed.

(** ** C7: mock rows are stable within a minute *)

(** C7.  Two calls of a mock-row generator (the client's [makeMockRow],
    the callback of the handler's [mockData]) for the same symbol and
    index, made at clock readings in the same minute bucket, yield the same
    price, change, changePercent, marketCap and volume. *)
Theorem mock_rows_stable_within_minute (W : World) (s : string) (i k1 k2 : nat) :
  minuteBucket (clock W k1) = minuteBucket (clock W k2) →
  (∃ r1 r2 k1' k2',
     makeMockRow W s i k1 = (Returned r1, k1')
     ∧ makeMockRow W s i k2 = (Returned r2, k2')
     ∧ numericFields r1 = numericFields r2)
  ∧ (∃ r1 r2 k1' k2',
       mockData_row W s i k1 = (Returned r1, k1')
       ∧ mockData_row W s i k2 = (Returned r2, k2')
       ∧ numericFields r1 = numericFields r2).
Proof.
  intros H. rewrite <- !minuteOf_bucket in H. split.
  - cbv [makeMockRow jitter bind Date_now ret]. rewrite H.
    eexists _, _, _, _. split; [reflexivity|]. split; reflexivity.
  - cbv [mockData_row bind Date_now ret]. rewrite H.
    eexists _, _, _, _. split; [reflexivity|]. split; reflexivity.
Qed.

Lemma mock_rows_stable_within_minute_witness :
  minuteBucket (clock offline 0) = minuteBucket (clock offline 4)
  ∧ (∃ r1 r2 k1' k2',
       makeMockRow offline "ZZZ" 3 0 = (Returned r1, k1')
       ∧ makeMockRow offline "ZZZ" 3 4 = (Returned r2, k2')
       ∧ numericFields r1 = numericFields r2).
Proof.
  split; [reflexivity|].
  apply (mock_rows_stable_within_minute offline "ZZZ" 3 0 4). reflexivity.
Defined.

(** ** C8: the numbers of a mock row *)




(** ** C9: the default symbols *)

(** C9, on the handler.  A request whose [symbols] parameter is present
    but normalises to nothing (here the empty string) gets no default
    substitution: the handler answers with an empty [stocks] list.  (The
    client substitutes the defaults and never answers with an empty list:
    [fetchStocks_nonempty].) *)
Theorem handler_empty_symbols_parameter :
  ∃ resp k',
    handler offline (QueryOk (Some "")) 0 = (Returned resp, k')
    ∧ query_symbols (QueryOk (Some "")) = []
    ∧ stocks resp = []
    ∧ query_symbols (QueryOk None) = defaultSymbols.
Proof. eexists _, _. split; [vm_compute; reflexivity|]. by vm_compute. Qed.

(** ** C10: market capitalisation on the client *)

(** C10.  A row that the client's adapter returns has no marketCap, and
    every row of a [fetchStocks] result is either such a row, without
    marketCap, or a row of the mock generator. *)
Theorem client_provider_rows_have_no_marketCap (W : World) :
  (∀ s r, live_row W s r → marketCap r = None)
  ∧ (∀ input k,
       ∃ resp k',
         fetchStocks W input k = (Returned resp, k')
         ∧ Forall (λ r, mock_row W r
                        ∨ ((∃ s, s ∈ normalize input ∧ live_row W s r)
                           ∧ marketCap r = None))
                  (stocks resp)).
Proof.
  split.
  - intros s r Hr. by apply live_row_inv in Hr as [? _].
  - intros input k.
    destruct (fetchStocks_rows W input k) as (resp & k' & E & H).
    exists resp, k'. split; [done|].
    eapply Forall_impl; [exact H|]. intros r [Hm|(s & Hs & Hr)]; [by left|].
    right. split; [by exists s|]. by apply live_row_inv in Hr as [? _].
Qed.

Lemma client_provider_rows_have_no_marketCap_witness :
  ∃ r, live_row faithfulEcho "AAPL" r ∧ marketCap r = None.
Proof.
  assert (∃ r, live_row faithfulEcho "AAPL" r) as [r Hr].
  { eexists. eexists 0%nat, _. vm_compute. reflexivity. }
  exists r. split; [exact Hr|].
  exact (proj1 (client_provider_rows_have_no_marketCap faithfulEcho) "AAPL" r Hr).
Defined.

(** * Further properties *)

(** ** Symbol lists *)

Lemma foldl_add_filter (l acc : list string) :
  NoDup acc →
  foldl JsSet.add acc l = acc ++ filter (λ x, x ∉ acc) (JsSet.new l).
Proof.
  unfold JsSet.new. revert acc. induction l as [|y l IH]; intros acc Hnd; simpl.
  - by rewrite app_nil_r.
  - rewrite (IH (JsSet.add acc y)) by by apply JsSetFacts.add_NoDup.
    rewrite (IH (JsSet.add [] y)) by apply JsSetFacts.add_NoDup, NoDup_nil_2.
    change (JsSet.add [] y) with [y].
    rewrite filter_app, list_filter_filter.
    unfold JsSet.add. case_bool_decide as Hy.
    + rewrite filter_cons_False, filter_nil by (intros H; by apply H). simpl.
      f_equal. apply list_filter_iff. intros x. rewrite list_elem_of_singleton.
      split; [|tauto]. intros Hx. split; [done|]. by intros ->.
    + rewrite filter_cons_True, filter_nil by done. rewrite <- app_assoc. simpl.
      do 2 f_equal. apply list_filter_iff. intros x.
      rewrite elem_of_app, list_elem_of_singleton. tauto.
Qed.

Lemma split_not_nil sep s : Str.split sep s ≠ [].
Proof. destruct s as [|c s]; simpl; [done|]. by repeat case_match. Qed.

Lemma split_plain s : occurs "," s = false → Str.split "," s = [s].
Proof.
  induction s as [|c s IH]; simpl; [done|].
  intros [Hc Hs]%orb_false_elim. rewrite Hc, IH by done. done.
Qed.

Lemma split_comma x rest :
  occurs "," x = false →
  Str.split "," (x ++ "," ++ rest) = x :: Str.split "," rest.
Proof.
  induction x as [|c x IH]; simpl; [done|].
  intros [Hc Hx]%orb_false_elim. rewrite Hc, IH by done. done.
Qed.

(** [split] undoes [join]: a non-empty list of comma-free strings comes
    back from its comma-separated rendering. *)
Lemma split_join (l : list string) :
  l ≠ [] →
  Forall (λ s, occurs "," s = false) l →
  Str.split "," (Str.join "," l) = l.
Proof.
  intros Hne Hl. induction Hl as [|x l Hx Hl IH]; [done|].
  destruct l as [|y l]; simpl.
  - by apply split_plain.
  - rewrite split_comma by done. f_equal. by apply IH.
Qed.

(** X1.  The normalised request is canonical: it has no duplicates, its members
    are trimmed, upper-cased and non-empty, they are exactly the non-empty
    normal forms of the inputs, and normalising again changes nothing. *)
Theorem normalize_canonical (arr : list string) :
  NoDup (normalize arr)
  ∧ Forall normalised (normalize arr)
  ∧ (∀ x, x ∈ normalize arr ↔ Str.truthy x = true ∧ ∃ y, x = normSymbol y ∧ y ∈ arr)
  ∧ normalize (normalize arr) = normalize arr.
Proof.
  split_and!.
  - apply normalize_NoDup.
  - apply normalize_normalised.
  - apply elem_of_normalize.
  - apply normalize_id; [apply normalize_NoDup|apply normalize_normalised].
Qed.

(** X2.  First occurrences win: normalising a concatenation keeps the
    normalised first part and appends, in order, the symbols of the second
    part that are new. *)
Theorem normalize_app (a b : list string) :
  normalize (a ++ b) = normalize a ++ filter (λ x, x ∉ normalize a) (normalize b).
Proof.
  unfold normalize, JsSet.Array_from.
  rewrite fmap_app, filter_app. unfold JsSet.new at 1. rewrite foldl_app.
  apply foldl_add_filter, JsSetFacts.new_NoDup.
Qed.

(** X3.  The handler reads a comma-separated parameter as the client reads the
    list itself: for comma-free entries, [uniqueSymbols] of the joined
    string is [normalize] of the list. *)
Theorem uniqueSymbols_join (l : list string) :
  Forall (λ s, occurs "," s = false) l →
  uniqueSymbols (Some (Str.join "," l)) = normalize l.
Proof.
  intros Hl. unfold uniqueSymbols. simpl default.
  destruct (decide (l = [])) as [->|Hne]; [reflexivity|].
  by rewrite split_join.
Qed.

Lemma uniqueSymbols_join_witness :
  Forall (λ s, occurs "," s = false) [" aapl"; "msft "; "AAPL"]
  ∧ uniqueSymbols (Some " aapl,msft ,AAPL") = ["AAPL"; "MSFT"].
Proof.
  assert (Forall (λ s, occurs "," s = false) [" aapl"; "msft "; "AAPL"]) as H
    by (repeat constructor).
  split; [exact H|]. exact (uniqueSymbols_join _ H).
Defined.

(** ** The client entry point *)

Lemma mapi_ext {A B} (f g : A → nat → M B) :
  (∀ x i k, f x i k = g x i k) → ∀ l i k, mapi f i l k = mapi g i l k.
Proof.
  intros Hfg. induction l as [|x l IH]; intros i k; simpl; [done|].
  unfold bind. rewrite Hfg. destruct (g x i k) as [[y|e] k1]; [|done].
  by rewrite IH.
Qed.

Lemma Forall2_labelled (P : StockData → Prop) (l : list string) (rs : list StockData) :
  symbol <$> rs = l → Forall P rs →
  Forall2 (λ s r, symbol r = s ∧ P r) l rs.
Proof.
  intros <- HP. induction HP as [|r rs Hr _ IH]; simpl; constructor; auto.
Qed.

Lemma Forall2_omap_total {A B} (f : A → option B) (P : A → B → Prop) (l : list A) :
  (∀ x, x ∈ l → ∃ y, f x = Some y ∧ P x y) →
  Forall2 P l (omap f l).
Proof.
  induction l as [|x l IH]; intros H; simpl; [constructor|].
  destruct (H x) as (y & -> & Hy); [left|].
  constructor; [done|]. apply IH. intros x' Hx'. apply H. by right.
Qed.

(** X4.  On the client the diagnostic is absent exactly when a key is
    configured, the normalised request is not empty, and the adapter
    obtained a row for every requested symbol. *)
Theorem client_diagnostic_iff (W : World) (input : list string) (k : nat) :
  ∃ resp k',
    fetchStocks W input k = (Returned resp, k')
    ∧ (error resp = None ↔
         Str.truthy_opt (API_KEY W) = true
         ∧ normalize input ≠ []
         ∧ Forall (λ s, served W s = true) (normalize input)).
Proof.
  destruct (fetchStocks_error_iff W input k) as (resp & k' & E & H).
  by exists resp, k'.
Qed.

(** X5.  The client never answers with an empty list.  When the normalised
    request is empty it answers for the five default symbols, with mock
    rows and a diagnostic, whatever the credentials. *)
Theorem client_never_empty (W : World) (input : list string) (k : nat) :
  ∃ resp k',
    fetchStocks W input k = (Returned resp, k')
    ∧ stocks resp ≠ []
    ∧ (normalize input = [] →
       symbol <$> stocks resp = defaultSymbols
       ∧ Forall (mock_row W) (stocks resp)
       ∧ is_Some (error resp)).
Proof.
  destruct (fetchStocks_nonempty W input k) as (resp & k' & E & Hne & Hdef).
  exists resp, k'. split; [done|]. split; [done|]. intros Hnil.
  split; [by apply Hdef|].
  destruct (fetchStocks_cases W input k) as (resp' & k'' & E' & Hc).
  rewrite E in E'. injection E' as <- <-.
  destruct Hc as [(_ & He & _ & Hm) | [(_ & _ & rows & mocks & _ & Hf & _)
                                      | (_ & _ & Hsym & _)]].
  - done.
  - rewrite Hnil in Hf. done.
  - done.
Qed.

(** X6.  Without a key the client does not depend on the network: two worlds
    with the same sine and clock give the same answer, whatever their
    providers would say. *)
Theorem client_without_key_ignores_providers (W W' : World) (input : list string) (k : nat) :
  Str.truthy_opt (API_KEY W) = false →
  Str.truthy_opt (API_KEY W') = false →
  Math_sin W = Math_sin W' →
  clock W = clock W' →
  fetchStocks W input k = fetchStocks W' input k.
Proof.
  intros Hk Hk' Hsin Hclock. unfold fetchStocks. rewrite Hk, Hk'. simpl.
  unfold bind, buildMock.
  rewrite (mapi_ext (makeMockRow W) (makeMockRow W')); [done|].
  intros s i n. unfold makeMockRow, jitter, sinJ, Date_now. by rewrite Hsin, Hclock.
Qed.

Lemma client_without_key_ignores_providers_witness :
  fetchStocks offline ["aapl"; "msft"] 0 = fetchStocks finnhubPartial ["aapl"; "msft"] 0.
Proof.
  apply (client_without_key_ignores_providers offline finnhubPartial); reflexivity.
Defined.

(** X7.  With faithful labels every requested symbol gets exactly one row, in
    request order: the adapter's row when a key is configured, some symbol
    was served and this one was, a mock row otherwise. *)
Theorem client_rows_by_symbol (W : World) (input : list string) (k : nat) :
  (∀ s, s ∈ normalize input → served W s = true → echoed W s = s) →
  ∃ resp k',
    fetchStocks W input k = (Returned resp, k')
    ∧ Forall2
        (λ s r, symbol r = s
                ∧ if Str.truthy_opt (API_KEY W)
                     && existsb (served W) (normalize input)
                     && served W s
                  then live_row W s r else mock_row W r)
        (effective (normalize input)) (stocks resp).
Proof.
  intros Hecho.
  destruct (fetchStocks_cases W input k) as (resp & k' & E & Hc).
  exists resp, k'. split; [done|].
  destruct Hc as [(Hwhy & _ & Hs & Hm) | [(Hkey & _ & rows & mocks & Hne & Hf & Hr & Hm & Hmock & ->)
                                         | (Hkey & _ & Hne & Hall & Hr)]].
  - assert (Str.truthy_opt (API_KEY W) && existsb (served W) (normalize input) = false)
      as ->.
    { destruct Hwhy as [->|Hnone]; [done|]. apply andb_false_intro2.
      apply not_true_is_false. intros (s & Hin & Hs')%existsb_exists.
      rewrite Forall_forall in Hnone. apply list_elem_of_In in Hin.
      specialize (Hnone s Hin). simpl in Hnone. congruence. }
    simpl. by apply Forall2_labelled.
  - assert (symbol <$> rows = filter (λ s, served W s = true) (normalize input)) as Hrows.
    { apply (live_rows_symbols W); [done|].
      intros s [Hs1 Hs2]%list_elem_of_filter. by apply Hecho. }
    assert (normalize input ≠ []) as Hsym by (intros Hnil; by rewrite Hnil in Hf).
    assert (existsb (served W) (normalize input) = true) as ->.
    { destruct rows as [|r rows]; [done|].
      assert (symbol r ∈ filter (λ s, served W s = true) (normalize input)) as Hin
        by (rewrite <- Hrows; left).
      apply list_elem_of_filter in Hin as [Hs Hin].
      apply existsb_exists. exists (symbol r). split; [by apply list_elem_of_In|done]. }
    rewrite Hkey, effective_nonempty by done. simpl.
    apply Forall2_omap_total. intros s Hs.
    destruct (merge_is_Some (rows ++ mocks) s) as [r Hlook].
    { rewrite fmap_app, elem_of_app, Hrows, Hm, !list_elem_of_filter.
      destruct (served W s) eqn:Es; [left|right]; done. }
    exists r. split; [done|].
    apply merge_lookup in Hlook as [Hsym' Hin]. split; [done|].
    destruct (served W s) eqn:Es.
    + apply elem_of_app in Hin as [Hin|Hin].
      * destruct (Forall2_elem_of_r _ _ _ _ Hr Hin) as (s' & Hs' & Hl).
        apply list_elem_of_filter in Hs' as [Hs'1 Hs'2].
        assert (s' = s) as ->; [|done].
        apply live_row_inv in Hl as [_ Hl]. rewrite Hecho in Hl by done. congruence.
      * assert (s ∈ symbol <$> mocks) as Hbad
          by (rewrite <- Hsym'; by apply list_elem_of_fmap_2).
        rewrite Hm in Hbad. apply list_elem_of_filter in Hbad as [Hbad _]. congruence.
    + apply elem_of_app in Hin as [Hin|Hin].
      * assert (s ∈ symbol <$> rows) as Hbad
          by (rewrite <- Hsym'; by apply list_elem_of_fmap_2).
        rewrite Hrows in Hbad. apply list_elem_of_filter in Hbad as [Hbad _]. congruence.
      * rewrite Forall_forall in Hmock. by apply Hmock.
  - assert (existsb (served W) (normalize input) = true) as ->.
    { destruct (normalize input) as [|s l]; [done|].
      apply Forall_cons in Hall as [Hs _]. simpl. by rewrite Hs. }
    rewrite Hkey, effective_nonempty by done. simpl.
    rewrite Forall_forall in Hall.
    assert (∀ l rs, Forall2 (live_row W) l rs →
            (∀ s, s ∈ l → served W s = true ∧ echoed W s = s) →
            Forall2 (λ s r, symbol r = s ∧ if served W s then live_row W s r else mock_row W r)
                    l rs) as Hgen.
    { induction 1 as [|s r l rs Hl _ IH]; intros Hok; constructor.
      - destruct (Hok s) as [Hs He]; [left|]. rewrite Hs. split; [|done].
        apply live_row_inv in Hl as [_ Hl]. by rewrite Hl.
      - apply IH. intros s' Hs'. apply Hok. by right. }
    apply Hgen; [done|]. intros s Hs. split; [by apply Hall|].
    apply Hecho; [done|]. by apply Hall.
Qed.

Lemma client_rows_by_symbol_witness :
  ∃ resp k',
    fetchStocks rateLimitedAfterFirst ["msft"; "AAPL"] 0 = (Returned resp, k')
    ∧ Forall2
        (λ s r, symbol r = s
                ∧ if Str.truthy_opt (API_KEY rateLimitedAfterFirst)
                     && existsb (served rateLimitedAfterFirst) (normalize ["msft"; "AAPL"])
                     && served rateLimitedAfterFirst s
                  then live_row rateLimitedAfterFirst s r
                  else mock_row rateLimitedAfterFirst r)
        ["MSFT"; "AAPL"] (stocks resp).
Proof.
  apply (client_rows_by_symbol rateLimitedAfterFirst ["msft"; "AAPL"] 0).
  intros s Hs _. unfold echoed. simpl.
  destruct (String.eqb s "AAPL"); [|reflexivity].
  by destruct s.
Defined.

(** ** The adapters *)


(** X10.  Finnhub serves a symbol exactly when the quote answer has a numeric
    [c] and the profile request is not rejected: a rejected profile fetch
    costs the quote, a profile body that is not JSON does not. *)
Theorem finnhub_adapter_serves_iff (W : World) (s : string) :
  fh_served W s = true ↔
  (∃ c d dp pc v, finnhub_quote W s = Body (FhObj (Some c) d dp pc v))
  ∧ finnhub_profile2 W s ≠ FetchRejects.
Proof.
  unfold fh_served, gotRow, finnhubQuote, catch, bind, fetch_json, Date_now, throw, ret.
  destruct (finnhub_quote W s) as [| |[|[c|] d dp pc v]]; simpl;
    try (split; [done|]; intros [(? & ? & ? & ? & ? & ?) _]; done).
  destruct (finnhub_profile2 W s) as [| |p]; simpl.
  - split; [done|]. by intros [_ ?].
  - split; [|done]. intros _. split; [|done]. by exists c, d, dp, pc, v.
  - split; [|done]. intros _. split; [|done]. by exists c, d, dp, pc, v.
Qed.

(** X11.  The handler's Alpha Vantage adapter serves a symbol exactly when the
    answer has no [Note], carries a "Global Quote" in which price, change
    and change percent are present, and the trading day, when it parses,
    has a valid 16:00Z instant.  Neither the content of those three fields,
    nor an [Information] member, nor anything the OVERVIEW request does
    matters. *)
Theorem handler_av_adapter_serves_iff (W : World) (s : string) :
  av_served W s = true ↔
  ∃ note info g,
    av_GLOBAL_QUOTE W s = Body (AvObj note info (Some g))
    ∧ Str.truthy_opt note = false
    ∧ is_Some (gq_price g)
    ∧ is_Some (gq_change g)
    ∧ is_Some (gq_change_percent g)
    ∧ is_Some (closeOf W (gq_latest_day g) 0).
Proof.
  unfold av_served, gotRow, alphaVantageQuote, catch, bind, fetch_json,
    resolveLastUpdated, toISOString_of, Date_now, throw, ret, closeOf, num_handler.
  destruct (av_GLOBAL_QUOTE W s) as [| |[|note info [g|]]] eqn:Ea; simpl;
    try (split; [done|]; intros (? & ? & ? & ? & _); done).
  2: { split; [|by intros (? & ? & ? & ? & _)]. by destruct (Str.truthy_opt note). }
  destruct (Str.truthy_opt note) eqn:En; simpl;
    [split; [done|]; intros (? & ? & ? & Heq & ? & _); simplify_eq; congruence|].
  destruct (gq_price g) as [p|] eqn:Ep; simpl;
    [|split; [done|]; intros (? & ? & ? & Heq & _ & [? H] & _); simplify_eq; congruence].
  destruct (gq_change g) as [c|] eqn:Ec; simpl;
    [|split; [done|]; intros (? & ? & ? & Heq & _ & _ & [? H] & _); simplify_eq; congruence].
  destruct (gq_change_percent g) as [cp|] eqn:Ecp; simpl;
    [|split; [done|]; intros (? & ? & ? & Heq & _ & _ & _ & [? H] & _);
      simplify_eq; congruence].
  assert ((∃ note0 info0 g0,
             Body (AvObj note info (Some g)) = Body (AvObj note0 info0 (Some g0))
             ∧ Str.truthy_opt note0 = false
             ∧ is_Some (gq_price g0) ∧ is_Some (gq_change g0)
             ∧ is_Some (gq_change_percent g0)
             ∧ is_Some (closeOf W (gq_latest_day g0) 0))
          ↔ is_Some (closeOf W (gq_latest_day g) 0)) as Hiff.
  { split.
    - intros (? & ? & ? & Heq & _ & _ & _ & _ & H). by simplify_eq.
    - intros H. exists note, info, g. rewrite Ep, Ec, Ecp.
      split_and!; try done; by eexists. }
  unfold closeOf in Hiff. rewrite Hiff. clear Hiff.
  destruct (av_OVERVIEW W s) as [| |o]; simpl;
    (destruct (Str.truthy_opt (gq_latest_day g) && _) eqn:Ed; simpl;
     [destruct (Date_parse W (default "" (gq_latest_day g) +:+ "T16:00:00Z")) eqn:Et; simpl|];
     split; try done; try (by eexists); by intros [? ?]).
Qed.

(** ** The handler *)





(** ** The numeric normalizers *)

Lemma removeAll_app cls a b :
  Str.removeAll cls (a +:+ b) = Str.removeAll cls a +:+ Str.removeAll cls b.
Proof.
  induction a as [|c a IH]; simpl; [done|].
  case_bool_decide; simpl; by rewrite IH.
Qed.

Lemma removeAll_separator (c : ascii) (b : string) :
  c = ","%char ∨ c = "%"%char →
  Str.removeAll [","%char; "%"%char] (String c b)
  = Str.removeAll [","%char; "%"%char] b.
Proof.
  intros Hc. simpl. rewrite bool_decide_true; [done|].
  destruct Hc as [->| ->]; set_solver.
Qed.

(** X13.  Both normalizers ignore grouping separators and percent signs wherever
    they stand: inserting a comma or a percent sign into the text does not
    change the result. *)
Theorem num_ignores_separators (a b : string) (c : ascii) :
  c = ","%char ∨ c = "%"%char →
  num (Some (a +:+ String c b)) = num (Some (a +:+ b))
  ∧ num_handler (Some (a +:+ String c b)) = num_handler (Some (a +:+ b)).
Proof.
  intros Hc. unfold num, num_handler.
  by rewrite !(removeAll_app [","%char; "%"%char]), removeAll_separator.
Qed.

Lemma num_ignores_separators_witness :
  ("%"%char = ","%char ∨ "%"%char = "%"%char)
  ∧ num (Some "-0.6893%") = num (Some "-0.6893")
  ∧ num_handler (Some "-0.6893%") = num_handler (Some "-0.6893").
Proof.
  split; [by right|].
  apply (num_ignores_separators "-0.6893" "" "%"). by right.
Defined.

(** ** Merging rows *)

Lemma merge_from_later (rs : list StockData) (m : gmap string StockData) s r :
  s ∈ symbol <$> rs →
  foldl (λ m r, <[symbol r := r]> m) m rs !! s = Some r →
  r ∈ rs.
Proof.
  revert m. induction rs as [|x rs IH]; intros m Hs Hr; simpl in *.
  - by apply elem_of_nil in Hs.
  - destruct (decide (s ∈ symbol <$> rs)) as [Hin|Hnin].
    + right. by apply (IH (<[symbol x:=x]> m)).
    + apply elem_of_cons in Hs as [->|Hs]; [|done].
      apply merge_from_lookup in Hr as [[Hsym Hin]|Hr].
      * destruct Hnin. rewrite <- Hsym. by apply list_elem_of_fmap_2.
      * rewrite lookup_insert_eq in Hr. injection Hr as ->. left.
Qed.

(** X14.  In the merged map the rows set later win: a symbol that one of the
    mock rows carries is bound to a mock row, also when a provider row
    carries the same symbol. *)
Theorem merge_later_wins (rows mocks : list StockData) (s : string) :
  s ∈ symbol <$> mocks →
  ∃ r, merge (rows ++ mocks) !! s = Some r ∧ r ∈ mocks ∧ symbol r = s.
Proof.
  intros Hs.
  destruct (merge_is_Some (rows ++ mocks) s) as [r Hr].
  { rewrite fmap_app, elem_of_app. by right. }
  exists r. split; [done|].
  pose proof (merge_lookup _ _ _ Hr) as [Hsym _]. split; [|done].
  unfold merge in Hr. rewrite foldl_app in Hr. by apply merge_from_later in Hr.
Qed.

Lemma merge_later_wins_witness :
  let live := mkStockData "MSFT" (Fin 1) (Fin 0) (Fin 0) None None 0 in
  let mock := mkStockData "MSFT" (Fin 2) (Fin 0) (Fin 0) (Some (Fin 3)) None 0 in
  "MSFT" ∈ symbol <$> [mock]
  ∧ ∃ r, merge ([live] ++ [mock]) !! "MSFT" = Some r ∧ r ∈ [mock] ∧ symbol r = "MSFT".
Proof.
  intros live mock.
  assert ("MSFT" ∈ symbol <$> [mock]) as H by (simpl; left).
  split; [exact H|]. exact (merge_later_wins [live] [mock] "MSFT" H).
Defined.

(** ** Rows of the client adapter *)

Lemma fetchQuote_contents (W : World) (s : string) (k k' : nat) (r : StockData) :
  fetchQuote W s k = (Returned (Some r), k') →
  ∃ note info g,
    av_GLOBAL_QUOTE W s = Body (AvObj note info (Some g))
    ∧ num (gq_price g) = Some (price r)
    ∧ num (gq_change g) = Some (change r)
    ∧ num (gq_change_percent g) = Some (changePercent r)
    ∧ volume r = num (gq_volume g)
    ∧ marketCap r = None
    ∧ symbol r = (if Str.truthy_opt (gq_symbol g) then default "" (gq_symbol g) else s)
    ∧ closeOf W (gq_latest_day g) (clock W k) = Some (lastUpdated r).
Proof.
  unfold fetchQuote. rewrite !bind_encodeURIComponent.
  unfold catch, bind, fetch_json, resolveLastUpdated,
    toISOString_of, Date_now, throw, ret, closeOf.
  destruct (av_GLOBAL_QUOTE W s) as [| |[|note info [g|]]]; simpl; try done.
  2: { by destruct (Str.truthy_opt note || Str.truthy_opt info). }
  destruct (Str.truthy_opt note || Str.truthy_opt info); simpl; [done|].
  destruct (keys g =? 0)%nat; simpl; [done|].
  destruct (num (gq_price g)) as [p|] eqn:Ep; simpl; [|done].
  destruct (num (gq_change g)) as [c|] eqn:Ec; simpl; [|done].
  destruct (num (gq_change_percent g)) as [cp|] eqn:Ecp; simpl; [|done].
  destruct (Str.truthy_opt (gq_latest_day g) && _) eqn:Ed; simpl.
  - destruct (Date_parse W (default "" (gq_latest_day g) +:+ "T16:00:00Z")) as [t|] eqn:Et;
      simpl; [|done].
    intros [= <- <-]. exists note, info, g. rewrite Ed, Et. by split_and!.
  - intros [= <- <-]. exists note, info, g. rewrite Ed. by split_and!.
Qed.

(** X9.  A row of the client's adapter carries the normalised fields of the
    "Global Quote" it was built from: price, change and change percent are
    the finite numbers [num] reads, the volume is what [num] reads from the
    volume field (absent when that is missing or not a number), the label
    is the provider's unless empty, there is no marketCap, and the
    timestamp is 16:00Z of the trading day when the day parses, else the
    clock reading of the call. *)
Theorem client_row_contents (W : World) (s : string) (k k' : nat) (r : StockData) :
  fetchQuote W s k = (Returned (Some r), k') →
  ∃ note info g,
    av_GLOBAL_QUOTE W s = Body (AvObj note info (Some g))
    ∧ num (gq_price g) = Some (price r)
    ∧ num (gq_change g) = Some (change r)
    ∧ num (gq_change_percent g) = Some (changePercent r)
    ∧ volume r = num (gq_volume g)
    ∧ marketCap r = None
    ∧ symbol r = (if Str.truthy_opt (gq_symbol g) then default "" (gq_symbol g) else s)
    ∧ closeOf W (gq_latest_day g) (clock W k) = Some (lastUpdated r).
Proof. exact (fetchQuote_contents W s k k' r). Qed.

Lemma client_row_contents_witness :
  ∃ r k',
    fetchQuote faithfulEcho "AAPL" 0 = (Returned (Some r), k')
    ∧ lastUpdated r = 1715356800000%Z
    ∧ ∃ note info g,
        av_GLOBAL_QUOTE faithfulEcho "AAPL" = Body (AvObj note info (Some g))
        ∧ num (gq_price g) = Some (price r)
        ∧ num (gq_change g) = Some (change r)
        ∧ num (gq_change_percent g) = Some (changePercent r)
        ∧ volume r = num (gq_volume g)
        ∧ marketCap r = None
        ∧ symbol r = (if Str.truthy_opt (gq_symbol g) then default "" (gq_symbol g) else "AAPL")
        ∧ closeOf faithfulEcho (gq_latest_day g) (clock faithfulEcho 0) = Some (lastUpdated r).
Proof.
  assert (∃ r k', fetchQuote faithfulEcho "AAPL" 0 = (Returned (Some r), k')
                  ∧ lastUpdated r = 1715356800000%Z) as (r & k' & E & Ht).
  { eexists _, _. split; [vm_compute; reflexivity|reflexivity]. }
  exists r, k'. split; [exact E|]. split; [exact Ht|].
  exact (client_row_contents faithfulEcho "AAPL" 0 k' r E).
Defined.

(** ** Ranges of the mock rows *)

Lemma index_mod_range (i n : nat) :
  (0 < n)%nat →
  (0 <= inject_Z (Z.of_nat (i mod n)) ∧ inject_Z (Z.of_nat (i mod n)) <= inject_Z (Z.of_nat n))%Q.
Proof.
  intros Hn. pose proof (Nat.mod_upper_bound i n) as Hlt.
  split.
  - change 0%Q with (inject_Z 0). rewrite <- Zle_Qle. lia.
  - rewrite <- Zle_Qle. lia.
Qed.

Lemma index_nonneg (i : nat) : (0 <= inject_Z (Z.of_nat i))%Q.
Proof. change 0%Q with (inject_Z 0). rewrite <- Zle_Qle. lia. Qed.

Lemma client_baseline_range s i :
  (100 <= p_price (client_baseline s i) ∧ p_price (client_baseline s i) <= 513
   ∧ 5000000 <= p_vol (client_baseline s i))%Q.
Proof.
  unfold client_baseline, MOCK_PRESETS.
  repeat (destruct (String.eqb s _); [simpl; split_and!; discriminate|]).
  cbn [p_price p_vol]. pose proof (index_mod_range i 8) as [H1 H2]; [lia|].
  change (inject_Z (Z.of_nat 8)) with 8%Q in H2.
  pose proof (index_nonneg i). split_and!; lra.
Qed.

Lemma handler_baseline_range s i :
  (100 <= p_price (handler_baseline s i) ∧ p_price (handler_baseline s i) <= 513
   ∧ 5000000 <= p_vol (handler_baseline s i))%Q.
Proof.
  unfold handler_baseline, MOCK_PRESETS.
  repeat (destruct (String.eqb s _); [simpl; split_and!; discriminate|]).
  cbn [p_price p_vol]. pose proof (index_mod_range i 7) as [H1 H2]; [lia|].
  change (inject_Z (Z.of_nat 7)) with 7%Q in H2.
  pose proof (index_nonneg i). split_and!; lra.
Qed.

Lemma mock_numbers_ranges b lo span r row :
  (0 <= r ∧ r <= 1)%Q →
  (0 <= p_price b ∧ p_price b <= 1000)%Q →
  (2 <= p_vol b)%Q → (1 # 2 <= lo)%Q → (0 <= span)%Q →
  mock_numbers b lo span r row →
  ∃ p v,
    price row = Fin p ∧ volume row = Some (Fin v)
    ∧ (0.97 * p_price b - 0.005 <= p ∧ p <= 1.03 * p_price b + 0.005)%Q
    ∧ (lo * p_vol b - 0.5 <= v ∧ v <= (lo + span) * p_vol b + 0.5)%Q.
Proof.
  intros [Hr0 Hr1] [Hp0 Hp1] Hvol Hlo Hspan (_ & Hprice & _ & Hv & _).
  unfold Num.div in Hprice. cbn [Num.mul Num.sub Num.add Num.neg] in Hprice.
  change (Qeq_bool 100 0) with false in Hprice.
  cbn [Num.mul Num.add Num.toFixed2] in Hprice.
  cbn [Num.mul Num.add Num.round Num.max] in Hv.
  set (q := (p_price b * (1 + (r * 6 + - (3)) / 100))%Q) in *.
  set (x := (p_vol b * (lo + r * span))%Q) in *.
  assert (0.97 * p_price b <= q ∧ q <= 1.03 * p_price b)%Q as [Hq0 Hq1].
  { subst q. unfold Qdiv. change (/ 100)%Q with (1 # 100)%Q.
    pose proof (Qmult_le_0_compat (p_price b) (r * 6 * (1 # 100)) Hp0 ltac:(lra)) as H1.
    pose proof (Qmult_le_0_compat (p_price b) ((1 - r) * 6 * (1 # 100)) Hp0 ltac:(lra)) as H2.
    split; lra. }
  destruct (NumFacts.toFixed2Q_spec q) as (n & _ & Hn1 & Hn2).
  { apply Qabs_case; intros _.
    - apply Qle_lt_trans with 1030%Q; [lra|reflexivity].
    - apply Qle_lt_trans with 0%Q; [lra|reflexivity]. }
  assert (lo * p_vol b <= x ∧ x <= (lo + span) * p_vol b)%Q as [Hx0 Hx1].
  { subst x.
    assert (0 <= p_vol b)%Q as Hv0 by lra.
    assert (0 <= 1 - r)%Q as Hr2 by lra.
    pose proof (Qmult_le_0_compat _ _ Hv0 (Qmult_le_0_compat _ _ Hr0 Hspan)) as H1.
    pose proof (Qmult_le_0_compat _ _ Hv0 (Qmult_le_0_compat _ _ Hr2 Hspan)) as H2.
    split; lra. }
  destruct (NumFacts.roundQ_close x) as [Hc0 Hc1].
  exists (Num.toFixed2Q q), (if Qle_bool 1 (inject_Z (Num.roundQ x))
                             then inject_Z (Num.roundQ x) else 1%Q).
  split; [done|]. split.
  { rewrite Hv. by destruct (Qle_bool 1 (inject_Z (Num.roundQ x))). }
  split; [split; lra|].
  destruct (Qle_bool 1 (inject_Z (Num.roundQ x))) eqn:E.
  - split; lra.
  - assert (¬ (1 <= inject_Z (Num.roundQ x))%Q) as Hlt.
    { intros H. apply Qle_bool_iff in H. congruence. }
    apply Qnot_le_lt in Hlt.
    pose proof (Qmult_le_0_compat (p_vol b - 2) (lo - (1 # 2)) ltac:(lra) ltac:(lra)) as H1.
    pose proof (Qmult_le_0_compat (p_vol b) span ltac:(lra) Hspan) as H2.
    split; lra.
Qed.

(** X15.  A mock row stays near its baseline: the price is within three percent
    of the baseline price, up to half a cent of rounding, and the volume
    is between 85 and 115 percent of the baseline volume in the client's
    generator, between 80 and 120 percent in the handler's, up to one half
    of rounding. *)
Theorem mock_row_ranges (W : World) (s : string) (i k : nat) :
  (Str.truthy s = true →
   ∃ row k' p v,
     makeMockRow W s i k = (Returned row, k')
     ∧ price row = Fin p ∧ volume row = Some (Fin v)
     ∧ (0.97 * p_price (client_baseline s i) - 0.005 <= p
        ∧ p <= 1.03 * p_price (client_baseline s i) + 0.005)%Q
     ∧ (0.85 * p_vol (client_baseline s i) - 0.5 <= v
        ∧ v <= 1.15 * p_vol (client_baseline s i) + 0.5)%Q)
  ∧ ((∀ x, (-1 <= Math_sin W x ∧ Math_sin W x <= 1)%Q) →
     ∃ row k' p v,
       mockData_row W s i k = (Returned row, k')
       ∧ price row = Fin p ∧ volume row = Some (Fin v)
       ∧ (0.97 * p_price (handler_baseline s i) - 0.005 <= p
          ∧ p <= 1.03 * p_price (handler_baseline s i) + 0.005)%Q
       ∧ (0.8 * p_vol (handler_baseline s i) - 0.5 <= v
          ∧ v <= 1.2 * p_vol (handler_baseline s i) + 0.5)%Q).
Proof.
  split.
  - intros Hs.
    destruct (makeMockRow_numbers W s i k Hs) as (row & k' & r & E & [Hlo Hhi] & Hn).
    destruct (client_baseline_range s i) as (Hb0 & Hb1 & Hb2).
    destruct (mock_numbers_ranges (client_baseline s i) 0.85 0.3 r row)
      as (p & v & Hp & Hv & Hpr & Hvr); try done; try (split; lra); try lra.
    exists row, k', p, v. split_and!; try done; lra.
  - intros Hsin.
    destruct (mockData_row_numbers W s i k Hsin) as (row & k' & r & E & Hr & Hn).
    destruct (handler_baseline_range s i) as (Hb0 & Hb1 & Hb2).
    destruct (mock_numbers_ranges (handler_baseline s i) 0.8 0.4 r row)
      as (p & v & Hp & Hv & Hpr & Hvr); try done; try (split; lra); try lra.
    exists row, k', p, v. split_and!; try done; lra.
Qed.

(** ** Sorting and filtering the table *)

Lemma sortInsert_perm {A} (cmp : A → A → Z) (x : A) (l : list A) :
  sortInsert cmp x l ≡ₚ x :: l.
Proof.
  induction l as [|y l IH]; simpl; [done|].
  destruct (cmp x y <=? 0)%Z; [done|].
  rewrite IH. apply Permutation_swap.
Qed.

Lemma Array_sort_perm {A} (cmp : A → A → Z) (l : list A) : Array_sort cmp l ≡ₚ l.
Proof.
  induction l as [|x l IH]; simpl; [done|].
  by rewrite sortInsert_perm, IH.
Qed.

Section SortOrder.

Context {A : Type} (cmp : A → A → Z) (P : A → Prop) (R : A → A → Prop).

Hypothesis cmp_R : ∀ a b, P a → P b → ((cmp a b <= 0)%Z ↔ R a b).
Hypothesis R_total : ∀ a b, P a → P b → R a b ∨ R b a.
Hypothesis R_trans : ∀ a b c, P a → P b → P c → R a b → R b c → R a c.

Lemma sortInsert_sorted (x : A) (l : list A) :
  P x → Forall P l → StronglySorted R l → StronglySorted R (sortInsert cmp x l).
Proof.
  intros Hx Hl Hs. induction Hs as [|y l Hs IH Hy]; simpl.
  - by repeat constructor.
  - apply Forall_cons in Hl as [HPy Hl].
    destruct (cmp x y <=? 0)%Z eqn:E.
    + apply Z.leb_le, cmp_R in E; [|done..].
      constructor; [by constructor|]. constructor; [done|].
      rewrite Forall_forall in Hy, Hl. apply Forall_forall. intros z Hz.
      apply (R_trans x y z); auto.
    + apply Z.leb_gt in E.
      assert (R y x) as Hyx.
      { destruct (R_total x y) as [H|H]; [done..| |done].
        apply cmp_R in H; [lia|done..]. }
      constructor; [by apply IH|].
      rewrite (sortInsert_perm cmp x l). by constructor.
Qed.

Lemma Array_sort_sorted (l : list A) :
  Forall P l → StronglySorted R (Array_sort cmp l).
Proof.
  induction 1 as [|x l Hx Hl IH]; simpl; [constructor|].
  apply sortInsert_sorted; [done| |done].
  by rewrite Array_sort_perm.
Qed.

End SortOrder.

Lemma ascii_compare_lt_trans a b c :
  Ascii.compare a b = Lt → Ascii.compare b c = Lt → Ascii.compare a c = Lt.
Proof.
  unfold Ascii.compare. rewrite !N.compare_lt_iff. apply N.lt_trans.
Qed.

Lemma string_compare_lt_trans a b c :
  String.compare a b = Lt → String.compare b c = Lt → String.compare a c = Lt.
Proof.
  revert b c. induction a as [|x a IH]; intros [|y b] [|z c]; simpl; try done.
  destruct (Ascii.compare x y) eqn:Exy; try done;
    destruct (Ascii.compare y z) eqn:Eyz; try done.
  - apply Ascii.compare_eq_iff in Exy, Eyz. subst.
    assert (Ascii.compare z z = Eq) as -> by apply N.compare_refl. apply IH.
  - apply Ascii.compare_eq_iff in Exy. subst. by rewrite Eyz.
  - apply Ascii.compare_eq_iff in Eyz. subst. by rewrite Exy.
  - by rewrite (ascii_compare_lt_trans x y z).
Qed.

Lemma string_not_ltb_trans a b c :
  String.ltb b a = false → String.ltb c b = false → String.ltb c a = false.
Proof.
  unfold String.ltb. intros Hba Hcb.
  destruct (String.compare c a) eqn:Eca; try done.
  destruct (String.compare b a) eqn:Eba; try done.
  - apply String.compare_eq_iff in Eba. subst. by rewrite Eca in Hcb.
  - destruct (String.compare c b) eqn:Ecb; try done.
    + apply String.compare_eq_iff in Ecb. subst. congruence.
    + rewrite String.compare_antisym in Eba, Ecb, Eca.
      destruct (String.compare a b) eqn:E1; try done.
      destruct (String.compare b c) eqn:E2; try done.
      by rewrite (string_compare_lt_trans a b c) in Eca.
Qed.

Lemma string_not_ltb_total a b : String.ltb b a = false ∨ String.ltb a b = false.
Proof.
  unfold String.ltb. rewrite (String.compare_antisym a b).
  destruct (String.compare b a); simpl; auto.
Qed.

Lemma num_not_lt_total x y : num_lt y x = false ∨ num_lt x y = false.
Proof.
  destruct x as [|[]|a], y as [|[]|b]; simpl; auto.
  destruct (Qle_bool a b) eqn:E1, (Qle_bool b a) eqn:E2; simpl; auto.
  assert (¬ (a <= b)%Q) as H1 by (rewrite <- Qle_bool_iff; congruence).
  assert (¬ (b <= a)%Q) as H2 by (rewrite <- Qle_bool_iff; congruence).
  lra.
Qed.

Lemma num_not_lt_trans x y z :
  x ≠ NaN → y ≠ NaN → z ≠ NaN →
  num_lt y x = false → num_lt z y = false → num_lt z x = false.
Proof.
  destruct x as [|[]|a], y as [|[]|b], z as [|[]|c]; simpl; try done.
  intros _ _ _ H1 H2.
  apply negb_false_iff, Qle_bool_iff in H1, H2.
  apply negb_false_iff, Qle_bool_iff. lra.
Qed.

Lemma value_le_total k a b :
  value_le (pick a k) (pick b k) ∨ value_le (pick b k) (pick a k).
Proof.
  unfold value_le. destruct k; simpl;
    auto using string_not_ltb_total, num_not_lt_total.
Qed.

Lemma value_le_trans k a b c :
  comparable k a → comparable k b → comparable k c →
  value_le (pick a k) (pick b k) → value_le (pick b k) (pick c k) →
  value_le (pick a k) (pick c k).
Proof.
  unfold value_le, comparable.
  destruct k; simpl; intros Ha Hb Hc;
    first [ apply string_not_ltb_trans
          | apply num_not_lt_trans; congruence ].
Qed.

Lemma compareRows_order k dir a b :
  (compareRows k dir a b <= 0)%Z ↔ rowOrder k dir a b.
Proof.
  unfold compareRows, rowOrder, value_le.
  destruct (value_le_total k a b) as [H|H]; unfold value_le in H;
    destruct (value_lt (pick a k) (pick b k)) eqn:E1,
             (value_lt (pick b k) (pick a k)) eqn:E2, dir;
    try done; split; (done || lia).
Qed.

Lemma includes_empty s : includes s "" = true.
Proof. by destruct s. Qed.

Lemma filtered_sorted (st : AppState) :
  Forall (comparable (app_sortKey st)) (app_rows st) →
  StronglySorted (rowOrder (app_sortKey st) (app_sortDir st)) (filtered st)
  ∧ filtered st
    ≡ₚ filter (λ x, includes (Str.toUpperCase (symbol x))
                      (Str.toUpperCase (Str.trim (app_query st))) = true)
         (app_rows st).
Proof.
  intros Hc. unfold filtered.
  set (q := Str.toUpperCase (Str.trim (app_query st))).
  assert ((if Str.truthy q
           then filter (λ x, includes (Str.toUpperCase (symbol x)) q = true) (app_rows st)
           else app_rows st)
          = filter (λ x, includes (Str.toUpperCase (symbol x)) q = true) (app_rows st))
    as ->.
  { destruct q; simpl; [|done]. symmetry. apply filter_all.
    apply Forall_forall. intros x _. apply includes_empty. }
  split; [|apply Array_sort_perm].
  apply (Array_sort_sorted _ (comparable (app_sortKey st))).
  - intros a b _ _. apply compareRows_order.
  - intros a b _ _. destruct (app_sortDir st); simpl; apply value_le_total.
  - intros a b c Ha Hb Hc'. destruct (app_sortDir st); simpl; intros H1 H2.
    + by apply (value_le_trans _ a b c).
    + by apply (value_le_trans _ c b a).
  - by apply Forall_filter_keep.
Qed.

(** X16.  The table shows exactly the rows whose upper-cased symbol contains the
    trimmed, upper-cased query, each once (all rows for a blank query), and
    shows them in the order of the chosen column and direction, provided
    no row has NaN in that column. *)
Theorem filtered_view (st : AppState) :
  Forall (comparable (app_sortKey st)) (app_rows st) →
  StronglySorted (rowOrder (app_sortKey st) (app_sortDir st)) (filtered st)
  ∧ filtered st
    ≡ₚ filter (λ x, includes (Str.toUpperCase (symbol x))
                      (Str.toUpperCase (Str.trim (app_query st))) = true)
         (app_rows st).
Proof. exact (filtered_sorted st). Qed.

Lemma filtered_view_witness :
  let rows := [mkStockData "MSFT" (Fin 430) (Fin 1) (Fin 0.2) None (Some (Fin 10)) 0;
               mkStockData "AAPL" (Fin 230) (Fin (-2)) (Fin (-0.9)) None None 0;
               mkStockData "AMZN" (Fin 178) (Fin 0) (Fin 0) (Some (Fin 5)) None 0] in
  let st := mkApp [] rows false None " a" KPrice Desc in
  Forall (comparable KPrice) rows
  ∧ symbol <$> filtered st = ["AAPL"; "AMZN"]
  ∧ StronglySorted (rowOrder KPrice Desc) (filtered st).
Proof.
  intros rows st.
  assert (Forall (comparable KPrice) rows) as H by (repeat constructor; discriminate).
  split; [exact H|]. split; [reflexivity|].
  exact (proj1 (filtered_view st H)).
Defined.

(** ** Loading and adding symbols *)

Lemma fetchStocks_error_values W input k :
  returns (fetchStocks W input k) (λ resp,
    error resp = None
    ∨ error resp = Some "No Alpha Vantage key found. Showing mock data."
    ∨ error resp
      = Some "Alpha Vantage daily limit reached or no data returned. Showing mock data."
    ∨ error resp
      = Some "Some symbols could not be refreshed (likely rate limit). Mock data shown for those entries.").
Proof.
  unfold fetchStocks.
  destruct (Str.truthy_opt (API_KEY W)); simpl.
  - unfold bind at 1.
    destruct (fetch_loop_returns W (normalize input) [] [] k)
      as (out & k1 & -> & rs & -> & _). simpl.
    destruct (length rs =? 0)%nat.
    + unfold bind. destruct (buildMock_returns W (normalize input) k1) as (ms & k2 & -> & _).
      eexists _, _. split; [reflexivity|]. simpl. auto.
    + destruct (0 <? length _)%nat.
      * unfold bind.
        destruct (buildMock_returns W (filter (λ s, served W s = false) (normalize input)) k1)
          as (ms & k2 & -> & _).
        eexists _, _. split; [reflexivity|]. simpl. auto.
      * eexists _, _. split; [reflexivity|]. simpl. auto.
  - unfold bind. destruct (buildMock_returns W (normalize input) k) as (ms & k2 & -> & _).
    eexists _, _. split; [reflexivity|]. simpl. auto.
Qed.

Lemma load_returns (W : World) (Math_random : nat → Q) (st : AppState) (k : nat) :
  ∃ resp st' k',
    fetchStocks W (app_symbols st) k = (Returned resp, k')
    ∧ load W Math_random st k = (Returned st', k')
    ∧ app_rows st' = stocks resp
    ∧ app_error st' = error resp
    ∧ app_loading st' = false
    ∧ app_symbols st' = app_symbols st
    ∧ (mockMode (app_error st') = true ↔ is_Some (error resp)).
Proof.
  destruct (fetchStocks_error_values W (app_symbols st) k) as (resp & k' & E & He).
  unfold load, catch, bind. rewrite E.
  eexists resp, _, k'. split; [done|]. split; [reflexivity|]. simpl.
  destruct He as [-> | [-> | [-> | ->]]]; simpl; split_and!; try done;
    (split; [try done; by eexists | try done]).
Qed.

(** X17.  The [try] branch of [load]: when [fetchStocks] returns an answer
    for the current symbols, the state shows the rows and the diagnostic of
    that answer, loading is over, the symbols are unchanged, and the "Mock
    Fallback" badge is on exactly when the answer carries a diagnostic. *)
Theorem load_shows_answer (W : World) (Math_random : nat → Q) (st : AppState)
    (k : nat) (resp : StockApiResponse) (k' : nat) :
  fetchStocks W (app_symbols st) k = (Returned resp, k') →
  ∃ st',
    load W Math_random st k = (Returned st', k')
    ∧ app_rows st' = stocks resp
    ∧ app_error st' = error resp
    ∧ app_loading st' = false
    ∧ app_symbols st' = app_symbols st
    ∧ (mockMode (app_error st') = true ↔ is_Some (error resp)).
Proof.
  intros E.
  destruct (fetchStocks_error_values W (app_symbols st) k) as (resp0 & k0 & E0 & He).
  rewrite E in E0. injection E0 as <- <-.
  unfold load, catch, bind. rewrite E.
  eexists. split; [reflexivity|]. simpl.
  destruct He as [-> | [-> | [-> | ->]]]; simpl; split_and!; try done;
    (split; [try done; by eexists | try done]).
Qed.

Lemma load_shows_answer_witness :
  let st := mkApp ["AAPL"; "MSFT"] [] true None "" KSymbol Asc in
  ∃ resp k' st',
    fetchStocks rateLimitedAfterFirst (app_symbols st) 0 = (Returned resp, k')
    ∧ load rateLimitedAfterFirst (λ _, 0.5%Q) st 0 = (Returned st', k')
    ∧ symbol <$> app_rows st' = ["AAPL"; "MSFT"]
    ∧ mockMode (app_error st') = true.
Proof.
  intros st.
  assert (∃ resp k',
            fetchStocks rateLimitedAfterFirst (app_symbols st) 0 = (Returned resp, k')
            ∧ symbol <$> stocks resp = ["AAPL"; "MSFT"]
            ∧ is_Some (error resp)) as (resp & k' & E & Hs & He).
  { eexists _, _. split; [vm_compute; reflexivity|].
    split; [by vm_compute|by eexists]. }
  destruct (load_shows_answer rateLimitedAfterFirst (λ _, 0.5%Q) st 0 resp k' E)
    as (st' & El & Hr & _ & _ & _ & Hm).
  exists resp, k', st'. split; [exact E|]. split; [exact El|].
  split; [by rewrite Hr|]. by apply Hm.
Defined.

(** X18.  [addSymbol] keeps the symbol list free of duplicates and at most
    sixteen long.  It does nothing for a blank query or a symbol already
    listed; otherwise it clears the query and appends the upper-cased,
    trimmed query, unless the list is full: a seventeenth symbol is
    dropped. *)
Theorem addSymbol_list (W : World) (Math_random : nat → Q) (st : AppState) (k : nat) :
  NoDup (app_symbols st) →
  (length (app_symbols st) ≤ 16)%nat →
  let s := Str.toUpperCase (Str.trim (app_query st)) in
  ∃ st' k',
    addSymbol W Math_random st k = (Returned st', k')
    ∧ NoDup (app_symbols st')
    ∧ (length (app_symbols st') ≤ 16)%nat
    ∧ (if negb (Str.truthy s) || bool_decide (s ∈ app_symbols st)
       then st' = st
       else app_query st' = ""
            ∧ app_symbols st'
              = if bool_decide (length (app_symbols st) < 16)%nat
                then app_symbols st ++ [s] else app_symbols st).
Proof.
  intros Hnd Hlen s. unfold addSymbol. fold s.
  destruct (negb (Str.truthy s) || bool_decide (s ∈ app_symbols st)) eqn:Ec.
  - exists st, k. by split_and!.
  - apply orb_false_elim in Ec as [_ Hin]. apply bool_decide_eq_false in Hin.
    destruct (load_returns W Math_random st k)
      as (resp & st1 & k' & _ & El & _).
    unfold bind. rewrite El. eexists _, k'. split; [reflexivity|]. simpl.
    assert (take 16 (app_symbols st ++ [s])
            = if bool_decide (length (app_symbols st) < 16)%nat
              then app_symbols st ++ [s] else app_symbols st) as ->.
    { case_bool_decide as Hl.
      - apply take_ge. rewrite length_app. simpl. lia.
      - rewrite take_app_le by lia. apply take_ge. lia. }
    case_bool_decide as Hl.
    + split_and!; try done.
      * apply NoDup_app. split_and!; [done| |apply NoDup_singleton].
        by intros x Hx ->%list_elem_of_singleton.
      * rewrite length_app. simpl. lia.
    + by split_and!.
Qed.

Lemma addSymbol_list_witness :
  let st := mkApp ["AAPL"; "MSFT"] [] false None " tsla " KSymbol Asc in
  NoDup (app_symbols st)
  ∧ (length (app_symbols st) ≤ 16)%nat
  ∧ ∃ st' k',
      addSymbol offline (λ _, 0.5%Q) st 0 = (Returned st', k')
      ∧ app_symbols st' = ["AAPL"; "MSFT"; "TSLA"]
      ∧ app_query st' = "".
Proof.
  intros st.
  assert (NoDup (app_symbols st)) as Hnd.
  { simpl. apply NoDup_cons. split; [|apply NoDup_singleton].
    intros H. apply list_elem_of_singleton in H. discriminate. }
  assert (length (app_symbols st) ≤ 16)%nat as Hlen by (simpl; lia).
  split; [exact Hnd|]. split; [exact Hlen|].
  destruct (addSymbol_list offline (λ _, 0.5%Q) st 0 Hnd Hlen)
    as (st' & k' & E & _ & _ & Hq & Hs).
  exists st', k'. split; [exact E|]. split; [exact Hs|exact Hq].
Defined.

(** X19.  The request that [addSymbol] awaits is the one of the render the
    handler belongs to: the rows shown afterwards are the answer for the
    list before the addition, and the symbol just added is fetched only by
    a later refresh. *)
Theorem addSymbol_fetches_previous_list
    (W : World) (Math_random : nat → Q) (st : AppState) (k : nat) :
  Str.truthy (Str.toUpperCase (Str.trim (app_query st))) = true →
  (Str.toUpperCase (Str.trim (app_query st))) ∉ app_symbols st →
  ∃ resp st' k',
    fetchStocks W (app_symbols st) k = (Returned resp, k')
    ∧ addSymbol W Math_random st k = (Returned st', k')
    ∧ app_rows st' = stocks resp
    ∧ app_error st' = error resp
    ∧ app_symbols st'
      = take 16 (app_symbols st ++ [Str.toUpperCase (Str.trim (app_query st))]).
Proof.
  intros Ht Hin. unfold addSymbol.
  rewrite Ht, bool_decide_false by done. simpl.
  destruct (load_returns W Math_random st k)
    as (resp & st1 & k' & E & El & Hr & He & _).
  unfold bind. rewrite El. exists resp. eexists _, k'.
  split; [done|]. split; [reflexivity|]. by simpl.
Qed.

Lemma addSymbol_fetches_previous_list_witness :
  let st := mkApp ["AAPL"] [] false None "msft" KSymbol Asc in
  Str.truthy (Str.toUpperCase (Str.trim (app_query st))) = true
  ∧ (Str.toUpperCase (Str.trim (app_query st)) ∉ app_symbols st)
  ∧ ∃ st' k',
      addSymbol faithfulEcho (λ _, 0.5%Q) st 0 = (Returned st', k')
      ∧ app_symbols st' = ["AAPL"; "MSFT"]
      ∧ symbol <$> app_rows st' = ["AAPL"].
Proof.
  intros st.
  assert ((Str.toUpperCase (Str.trim (app_query st))) ∉ app_symbols st) as Hin.
  { simpl. intros H. apply list_elem_of_singleton in H. discriminate. }
  split; [reflexivity|]. split; [exact Hin|].
  destruct (addSymbol_fetches_previous_list faithfulEcho (λ _, 0.5%Q) st 0 eq_refl Hin)
    as (resp & st' & k' & E & Ea & Hr & _ & Hs).
  exists st', k'. split; [exact Ea|]. split; [exact Hs|].
  rewrite Hr. revert E. vm_compute. by intros [= <- _].
Defined.

Lemma mock_row_ranges_witness :
  Str.truthy "TSLA" = true
  ∧ (∀ x, (-1 <= Math_sin offline x ∧ Math_sin offline x <= 1)%Q)
  ∧ (∃ row k' p v,
       makeMockRow offline "TSLA" 2 0 = (Returned row, k')
       ∧ price row = Fin p ∧ volume row = Some (Fin v)
       ∧ (0.97 * p_price (client_baseline "TSLA" 2) - 0.005 <= p
          ∧ p <= 1.03 * p_price (client_baseline "TSLA" 2) + 0.005)%Q
       ∧ (0.85 * p_vol (client_baseline "TSLA" 2) - 0.5 <= v
          ∧ v <= 1.15 * p_vol (client_baseline "TSLA" 2) + 0.5)%Q)
  ∧ (∃ row k' p v,
       mockData_row offline "TSLA" 2 0 = (Returned row, k')
       ∧ price row = Fin p ∧ volume row = Some (Fin v)
       ∧ (0.97 * p_price (handler_baseline "TSLA" 2) - 0.005 <= p
          ∧ p <= 1.03 * p_price (handler_baseline "TSLA" 2) + 0.005)%Q
       ∧ (0.8 * p_vol (handler_baseline "TSLA" 2) - 0.5 <= v
          ∧ v <= 1.2 * p_vol (handler_baseline "TSLA" 2) + 0.5)%Q).
Proof.
  assert (∀ x, (-1 <= Math_sin offline x ∧ Math_sin offline x <= 1)%Q) as Hsin.
  { intros x. simpl. split; discriminate. }
  split; [reflexivity|]. split; [exact Hsin|]. split.
  - apply (proj1 (mock_row_ranges offline "TSLA" 2 0)). reflexivity.
  - apply (proj2 (mock_row_ranges offline "TSLA" 2 0)). exact Hsin.
Defined.

(** ** The table of a loaded answer *)

Lemma mock_numbers_comparable b lo span r row key :
  mock_numbers b lo span r row → comparable key row.
Proof.
  intros (Hcp & Hp & Hc & Hv & Hm). unfold comparable, pick.
  destruct key; try done.
  - rewrite Hp. cbn. discriminate.
  - rewrite Hc, Hp, Hcp. cbn. discriminate.
  - rewrite Hcp. cbn. discriminate.
  - rewrite Hm. cbn. discriminate.
  - rewrite Hv. cbn. by destruct (Qle_bool _ _).
Qed.

Lemma mock_row_comparable W r key :
  mock_row W r → Str.truthy (symbol r) = true → comparable key r.
Proof.
  intros (s & i & k & k' & E) Hs.
  destruct (makeMockRow_returns W s i k) as (r' & k'' & E' & Hs' & _).
  rewrite E in E'. injection E' as <- <-. subst s.
  destruct (makeMockRow_numbers W (symbol r) i k Hs) as (row & k1 & q & E1 & _ & Hn).
  rewrite E in E1. injection E1 as <- <-.
  by apply (mock_numbers_comparable _ _ _ _ _ key Hn).
Qed.

Lemma live_row_comparable W s r key : live_row W s r → comparable key r.
Proof.
  intros Hl. destruct (live_row_finite W s r Hl) as (Hp & Hc & Hcp).
  destruct Hl as (k & k' & E).
  destruct (fetchQuote_contents W s k k' r E)
    as (note & info & g & _ & _ & _ & _ & Hv & Hm & _).
  unfold comparable, pick. destruct key; try done.
  - by destruct (price r).
  - by destruct (change r).
  - by destruct (changePercent r).
  - by rewrite Hm.
  - rewrite Hv. destruct (num (gq_volume g)) as [x|] eqn:Ex; [|done].
    apply num_finite in Ex. by destruct x.
Qed.

Lemma normalised_truthy (l : list string) s :
  s ∈ effective (normalize l) → Str.truthy s = true.
Proof.
  unfold effective. destruct (0 <? length (normalize l))%nat.
  - intros Hs. pose proof (normalize_normalised l) as Hn.
    rewrite Forall_forall in Hn. by destruct (Hn s Hs).
  - unfold defaultSymbols. rewrite !elem_of_cons, elem_of_nil.
    intros [->|[->|[->|[->|[->|[]]]]]]; done.
Qed.

Lemma fetchStocks_comparable W input k key :
  returns (fetchStocks W input k) (λ resp, Forall (comparable key) (stocks resp)).
Proof.
  destruct (fetchStocks_cases W input k) as (resp & k' & E & Hc).
  exists resp, k'. split; [done|].
  destruct Hc as [(_ & _ & Hs & Hm) | [(_ & _ & rows & mocks & _ & _ & Hr & Hms & Hm & ->)
                                     | (_ & _ & _ & _ & Hr)]].
  - apply Forall_forall. intros r Hr.
    apply mock_row_comparable with W.
    + rewrite Forall_forall in Hm. by apply Hm.
    + apply (normalised_truthy input). rewrite <- Hs. by apply list_elem_of_fmap_2.
  - apply Forall_forall. intros r (s & Hs & Hl)%list_elem_of_omap.
    apply merge_lookup in Hl as [Hsym [Hin|Hin]%elem_of_app].
    + destruct (Forall2_elem_of_r _ _ _ _ Hr Hin) as (s' & _ & Hl).
      by apply live_row_comparable with W s'.
    + apply mock_row_comparable with W.
      * rewrite Forall_forall in Hm. by apply Hm.
      * pose proof (normalize_normalised input) as Hn.
        rewrite Forall_forall in Hn. rewrite Hsym. by destruct (Hn s Hs).
  - apply Forall_forall. intros r Hin.
    destruct (Forall2_elem_of_r _ _ _ _ Hr Hin) as (s' & _ & Hl).
    by apply live_row_comparable with W s'.
Qed.

(** X20.  Whatever the providers answer, the table of a loaded state is in
    order: after [load], for every column, direction and query, the rows
    shown are sorted by that column.  No row of a [fetchStocks] answer has
    NaN in any column. *)
Theorem loaded_table_sorted
    (W : World) (Math_random : nat → Q) (st : AppState) (k : nat)
    (key : SortKey) (dir : SortDir) (query : string) :
  ∃ st' k',
    load W Math_random st k = (Returned st', k')
    ∧ Forall (λ r, ∀ c, comparable c r) (app_rows st')
    ∧ StronglySorted (rowOrder key dir)
        (filtered (mkApp (app_symbols st') (app_rows st') (app_loading st')
                         (app_error st') query key dir)).
Proof.
  destruct (load_returns W Math_random st k)
    as (resp & st' & k' & E & El & Hr & _).
  exists st', k'. split; [done|].
  assert (∀ c, Forall (comparable c) (app_rows st')) as Hc.
  { intros c. destruct (fetchStocks_comparable W (app_symbols st) k c)
      as (resp' & k'' & E' & H).
    rewrite E in E'. injection E' as <- <-. by rewrite Hr. }
  split.
  - apply Forall_forall. intros r Hin c.
    specialize (Hc c). rewrite Forall_forall in Hc. by apply Hc.
  - apply (filtered_sorted (mkApp _ _ _ _ query key dir)). apply Hc.
Qed.

(** ** The bookkeeping of the fetch loop *)

(** X21.  The loop of [fetchStocks] accounts for every symbol exactly once: the
    symbols the adapter does not serve are appended to [failed] in request
    order, one row per served symbol is appended to [rows] in request
    order, and nothing already collected is touched. *)
Theorem fetch_loop_bookkeeping
    (W : World) (todo : list string) (rows : list StockData) (failed : list string) (k : nat) :
  ∃ new k',
    fetch_loop W todo rows failed k
    = (Returned (rows ++ new, failed ++ filter (λ s, served W s = false) todo), k')
    ∧ Forall2 (live_row W) (filter (λ s, served W s = true) todo) new
    ∧ (length new + length (filter (λ s, served W s = false) todo) = length todo)%nat.
Proof.
  destruct (fetch_loop_returns W todo rows failed k) as (out & k' & E & new & -> & Hnew).
  exists new, k'. split; [done|]. split; [done|].
  rewrite <- (Forall2_length _ _ _ Hnew). clear.
  induction todo as [|s todo IH]; simpl; [done|].
  rewrite !filter_cons. destruct (served W s); simpl;
    repeat case_decide; try congruence; simpl; lia.
Qed.

Lemma client_never_empty_witness :
  normalize [" "; ""] = []
  ∧ ∃ resp k',
      fetchStocks faithfulEcho [" "; ""] 0 = (Returned resp, k')
      ∧ symbol <$> stocks resp = defaultSymbols.
Proof.
  split; [reflexivity|].
  destruct (client_never_empty faithfulEcho [" "; ""] 0) as (resp & k' & E & _ & H).
  exists resp, k'. split; [exact E|]. exact (proj1 (H eq_refl)).
Defined.
